(** * Verification of the convention-based route-file loader (src/index.js)

    The loader is glue code around four collaborators: [node:path],
    [node:fs/promises], the dynamic [import()] of the host runtime and
    the [@koa/router] instance it fills.  The development below embeds
    the loader as a function in a small state-and-exception monad over a
    world holding the module store (the objects exported by the route
    files), the [lastIndex] slots of the caller's regular expressions and
    the trace of collaborator calls.  [node:path] is taken through an
    interface with a POSIX instance that follows the documented
    behaviour of Node's [path.posix]. *)

From stdpp Require Import gmap strings list.
From Stdlib Require Import Ascii String ZArith Lia.

Open Scope string_scope.
Set Warnings "-register-all".

(** ** JavaScript strings

    A JavaScript string is modelled by a Rocq [string].  The loader only
    inspects the characters [/], [\] and [.], all of which are single
    code units in either encoding. *)

Module JSString.

Definition slash : ascii := "/"%char.
Definition backslash : ascii := "\"%char.
Definition dot : ascii := "."%char.

(** [s.startsWith('/')] *)
Definition startsWith_slash (s : string) : bool :=
  match s with
  | String c _ => Ascii.eqb c slash
  | EmptyString => false
  end.

(** [s.startsWith(p)] *)
Fixpoint startsWith (p s : string) : bool :=
  match p, s with
  | EmptyString, _ => true
  | String a p', String b s' => Ascii.eqb a b && startsWith p' s'
  | String _ _, EmptyString => false
  end.

(** [s.endsWith('/')] *)
Fixpoint endsWith_slash (s : string) : bool :=
  match s with
  | EmptyString => false
  | String c EmptyString => Ascii.eqb c slash
  | String _ s' => endsWith_slash s'
  end.

Definition backslash_to_slash (c : ascii) : ascii :=
  if Ascii.eqb c backslash then slash else c.

(** [s.replaceAll('\\', '/')]: the pattern is one character long, so the
    replacement is a character-wise map. *)
Fixpoint replaceAll_backslash (s : string) : string :=
  match s with
  | EmptyString => EmptyString
  | String c s' => String (backslash_to_slash c) (replaceAll_backslash s')
  end.

(** [s.includes(c)] for a one-character needle. *)
Fixpoint includes_char (c : ascii) (s : string) : bool :=
  match s with
  | EmptyString => false
  | String a s' => Ascii.eqb a c || includes_char c s'
  end.

(** [s.split('/')]: always returns at least one piece. *)
Fixpoint split_slash (s : string) : list string :=
  match s with
  | EmptyString => [EmptyString]
  | String c s' =>
      if Ascii.eqb c slash then EmptyString :: split_slash s'
      else match split_slash s' with
           | seg :: segs => String c seg :: segs
           | [] => [String c EmptyString]
           end
  end.

(** [segs.join('/')] *)
Fixpoint join_slash (segs : list string) : string :=
  match segs with
  | [] => EmptyString
  | [seg] => seg
  | seg :: segs' => seg ++ String slash (join_slash segs')
  end.

Definition is_empty (s : string) : bool :=
  match s with EmptyString => true | _ => false end.

End JSString.

(** ** The [node:path] interface used by the loader

    [relative] reads the process working directory (through
    [path.resolve]), which is made an explicit first argument. *)

Class PathOps := {
  isAbsolute : string -> bool;
  join : list string -> string;
  relative : string -> string -> string -> string;
  dirname : string -> string;
  extname : string -> string
}.

(** ** [path.posix]

    [node:path] is not part of the repository.  [normalize], [join] and
    [relative] are given by what Node does to the segments of a path;
    [dirname] and [extname] follow the backwards scans of Node's
    implementation character by character. *)

Module Posix.
Import JSString.

Definition isAbsolute (path : string) : bool := startsWith_slash path.

(** One step of [normalizeString]: [res] holds the segments written so
    far, last one first.  Empty and [.] segments are dropped; [..]
    removes the last written segment unless there is none or it is
    itself [..], in which case [..] is kept only when the path may climb
    above its root. *)
Definition push_segment (allowAboveRoot : bool) (res : list string) (seg : string)
  : list string :=
  if String.eqb seg "" || String.eqb seg "." then res
  else if String.eqb seg ".." then
    match res with
    | last :: res' =>
        if String.eqb last ".." then (if allowAboveRoot then seg :: res else res)
        else res'
    | [] => if allowAboveRoot then [seg] else []
    end
  else seg :: res.

Definition normalize_segments (allowAboveRoot : bool) (segs : list string) : list string :=
  rev (fold_left (push_segment allowAboveRoot) segs []).

Definition normalizeString (path : string) (allowAboveRoot : bool) : string :=
  join_slash (normalize_segments allowAboveRoot (split_slash path)).

(** [path.posix.normalize] *)
Definition normalize (path : string) : string :=
  if is_empty path then "."
  else
    let isAbs := startsWith_slash path in
    let trailingSeparator := endsWith_slash path in
    let path' := normalizeString path (negb isAbs) in
    if is_empty path' then
      if isAbs then "/" else if trailingSeparator then "./" else "."
    else
      let path'' := if trailingSeparator then path' ++ "/" else path' in
      if isAbs then "/" ++ path'' else path''.

(** [path.posix.join]: empty arguments are skipped, the others are
    glued with [/] and the result is normalized. *)
Definition join (args : list string) : string :=
  match List.filter (fun arg => negb (is_empty arg)) args with
  | [] => "."
  | parts => normalize (join_slash parts)
  end.

(** [path.posix.resolve] of one path against the working directory
    (itself absolute): the segments of the absolute, normalized result. *)
Definition resolve_segments (cwd path : string) : list string :=
  let full := if startsWith_slash path then path
              else if is_empty path then cwd
              else cwd ++ "/" ++ path in
  normalize_segments false (split_slash full).

Fixpoint strip_common (from to : list string) : list string * list string :=
  match from, to with
  | f :: from', t :: to' =>
      if String.eqb f t then strip_common from' to' else (from, to)
  | _, _ => (from, to)
  end.

(** [path.posix.relative]: one [..] per segment of [from] below the
    common ancestor, then the rest of [to]. *)
Definition relative (cwd from to : string) : string :=
  if String.eqb from to then ""
  else
    let '(from', to') :=
      strip_common (resolve_segments cwd from) (resolve_segments cwd to) in
    join_slash (map (fun _ => "..") from' ++ to').

Definition chars (s : string) : list ascii := list_ascii_of_string s.
Definition of_chars (l : list ascii) : string := string_of_list_ascii l.

Fixpoint drop_while (p : ascii -> bool) (l : list ascii) : list ascii :=
  match l with
  | c :: l' => if p c then drop_while p l' else l
  | [] => []
  end.

(** [path.posix.dirname].  The source scans [path] from its last
    character down to index 1: trailing slashes are passed over, then
    the last component, and the first slash met after it marks the end
    of the result. *)
Definition dirname (path : string) : string :=
  match chars path with
  | [] => "."
  | c0 :: tail =>
      let hasRoot := Ascii.eqb c0 slash in
      let scan := drop_while (fun c => negb (Ascii.eqb c slash))
                    (drop_while (fun c => Ascii.eqb c slash) (rev tail)) in
      match scan with
      | [] => if hasRoot then "/" else "."
      | _ :: [] => if hasRoot then "//" else of_chars [c0]
      | _ :: before => of_chars (c0 :: rev before)
      end
  end.

(** State of the backwards scan of [path.posix.extname]. *)
Record ext_state := {
  startDot : Z;
  startPart : Z;
  end_ : Z;
  matchedSlash : bool;
  preDotState : Z
}.

Definition ext_init : ext_state :=
  {| startDot := -1; startPart := 0; end_ := -1; matchedSlash := true; preDotState := 0 |}.

(** The loop [for (let i = path.length - 1; i >= 0; --i)]; [rs] holds
    the characters at indices [i], [i-1], ..., [0]. *)
Fixpoint ext_loop (rs : list ascii) (i : Z) (st : ext_state) : ext_state :=
  match rs with
  | [] => st
  | code :: rs' =>
      if Ascii.eqb code slash then
        if negb (matchedSlash st) then
          {| startDot := startDot st; startPart := i + 1; end_ := end_ st;
             matchedSlash := matchedSlash st; preDotState := preDotState st |}
        else ext_loop rs' (i - 1) st
      else
        let st1 :=
          if (end_ st =? -1)%Z then
            {| startDot := startDot st; startPart := startPart st; end_ := i + 1;
               matchedSlash := false; preDotState := preDotState st |}
          else st in
        let st2 :=
          if Ascii.eqb code dot then
            if (startDot st1 =? -1)%Z then
              {| startDot := i; startPart := startPart st1; end_ := end_ st1;
                 matchedSlash := matchedSlash st1; preDotState := preDotState st1 |}
            else if negb (preDotState st1 =? 1)%Z then
              {| startDot := startDot st1; startPart := startPart st1; end_ := end_ st1;
                 matchedSlash := matchedSlash st1; preDotState := 1 |}
            else st1
          else if negb (startDot st1 =? -1)%Z then
            {| startDot := startDot st1; startPart := startPart st1; end_ := end_ st1;
               matchedSlash := matchedSlash st1; preDotState := -1 |}
          else st1 in
        ext_loop rs' (i - 1) st2
  end.

(** [path.slice(a, b)] for [0 <= a]. *)
Definition slice (path : string) (a b : Z) : string :=
  of_chars (take (Z.to_nat (b - a)) (drop (Z.to_nat a) (chars path))).

(** [path.posix.extname] *)
Definition extname (path : string) : string :=
  let n := Z.of_nat (String.length path) in
  let st := ext_loop (rev (chars path)) (n - 1) ext_init in
  if (startDot st =? -1)%Z
     || (end_ st =? -1)%Z
     || (preDotState st =? 0)%Z
     || ((preDotState st =? 1)%Z
         && (startDot st =? end_ st - 1)%Z
         && (startDot st =? startPart st + 1)%Z)
  then ""
  else slice path (startDot st) (end_ st).

End Posix.

#[export] Instance posix : PathOps := {|
  isAbsolute := Posix.isAbsolute;
  join := Posix.join;
  relative := Posix.relative;
  dirname := Posix.dirname;
  extname := Posix.extname
|}.

(** ** JavaScript values and the module store

    Objects live in a store and are referred to by location, so that two
    imports of one module (or two modules re-exporting one object) see
    the same mutable object.  Functions are opaque and arrays are only
    read, so both are kept by value; neither carries own properties in
    this model.  An iterable object that is not an array (a [Set], a
    [Map], a generator, a typed array) is only ever spread, so it is kept
    as the sequence of values its iteration yields. *)

Abbreviation loc := positive.

Inductive value :=
| VUndefined
| VNull
| VBool (b : bool)
| VNum (n : Z)
| VStr (s : string)
| VFun (name : string)
| VArr (elems : list value)
| VIter (elems : list value)
| VObj (l : loc).

Abbreviation object := (gmap string value).
Abbreviation store := (gmap positive (gmap string value)).

(** JavaScript truthiness ([ToBoolean]): [undefined], [null], [false],
    [0] and the empty string are falsy; every object, array (also the
    empty one) and function is truthy. *)
Definition truthy (v : value) : bool :=
  match v with
  | VUndefined | VNull => false
  | VBool b => b
  | VNum n => negb (n =? 0)%Z
  | VStr s => negb (JSString.is_empty s)
  | VFun _ | VArr _ | VIter _ | VObj _ => true
  end.

Definition is_function (v : value) : bool :=
  match v with VFun _ => true | _ => false end.

Definition is_string (v : value) : bool :=
  match v with VStr _ => true | _ => false end.

(** What a [throw] carries: an [Error] instance (of whatever subclass)
    with its message, or any other value a module may throw. *)
Inductive thrown :=
| ThrowError (message : string)
| ThrowValue (v : value).

Inductive result (A : Type) :=
| Return (a : A)
| Throw (e : thrown).
Arguments Return {A} a.
Arguments Throw {A} e.

(** ** Regular expressions

    A [RegExp] object is its matcher (does the pattern match starting
    exactly at this index, and where does the match end), its [g] and
    [y] flags and its identity, which names the mutable [lastIndex]
    slot of the object in the world. *)
Record RegExp := {
  re_id : nat;
  re_matcher : string -> nat -> option nat;
  re_global : bool;
  re_sticky : bool
}.

(** The forward search of [RegExpBuiltinExec]: try [i], [i+1], ... up to
    the length of the string; [fuel] is the number of later positions. *)
Fixpoint re_search (matcher : string -> nat -> option nat) (s : string)
    (fuel i : nat) : option nat :=
  match matcher s i with
  | Some e => Some e
  | None =>
      match fuel with
      | O => None
      | S fuel' => re_search matcher s fuel' (S i)
      end
  end.

(** ** The router collaborator

    [router.stack] as a list of layers, oldest first.  A layer is kept
    as the arguments of the [register] call that made it: the path, the
    [methods] value and the spread handlers.  What the router makes of
    methods and handlers inside its own layer object is not modelled. *)
Record Layer := {
  layer_path : string;
  layer_methods : value;
  layer_middleware : list value
}.

Definition Router := list Layer.

(** ** Directory entries ([fs.Dirent]) *)
Inductive dirent_kind := KFile | KDirectory | KSymbolicLink | KOther.

Record Dirent := {
  d_name : string;
  d_parentPath : string;
  d_kind : dirent_kind
}.

Definition isFile (p : Dirent) : bool :=
  match d_kind p with KFile => true | _ => false end.

(** ** Collaborator calls and the world *)
Inductive event :=
| EvAccess (path : string)
| EvReaddir (path : string)
| EvImport (file : string)
| EvWarn (args : list value)
| EvRegister (path : string) (methods : value) (handlers : list value).

Record World := {
  heap : store;
  lastIndex : gmap nat nat;
  trace : list event
}.

(** The host: working directory, file system, module loader, the
    objects that its modules froze (or whose properties they made
    read-only), and the checks the router makes on a [register] call
    ([Some message] when it throws). *)
Record Env := {
  cwd : string;
  fs_access : string -> bool;
  fs_readdir : string -> result (list Dirent);
  import_default : string -> result value;
  frozen : loc -> bool;
  router_check : string -> value -> list value -> option string
}.

(** ** State and exceptions *)
Definition M (A : Type) : Type := World -> result A * World.

Definition ret {A} (a : A) : M A := fun w => (Return a, w).

Definition bind {A B} (c : M A) (k : A -> M B) : M B :=
  fun w =>
    match c w with
    | (Return a, w') => k a w'
    | (Throw e, w') => (Throw e, w')
    end.

Definition throw {A} (e : thrown) : M A := fun w => (Throw e, w).

(** [try { c } catch (error) { handler error }]: effects of [c] made
    before the throw stay. *)
Definition try_catch {A} (c : M A) (handler : thrown -> M A) : M A :=
  fun w =>
    match c w with
    | (Return a, w') => (Return a, w')
    | (Throw e, w') => handler e w'
    end.

Definition lift_result {A} (r : result A) : M A := fun w => (r, w).

(** The world after more collaborator calls. *)
Definition log (w : World) (es : list event) : World :=
  {| heap := heap w; lastIndex := lastIndex w; trace := (trace w ++ es)%list |}.

Definition with_heap (w : World) (h : store) : World :=
  {| heap := h; lastIndex := lastIndex w; trace := trace w |}.

Definition emit (e : event) : M unit := fun w => (Return tt, log w [e]).

Declare Scope loader_scope.
Delimit Scope loader_scope with loader.
Notation "x <- c1 ;; c2" := (bind c1 (fun x => c2))
  (at level 100, c1 at next level, right associativity) : loader_scope.
Notation "c1 ;; c2" := (bind c1 (fun _ => c2))
  (at level 100, right associativity) : loader_scope.
Open Scope loader_scope.

Fixpoint foldM {A B} (f : A -> B -> M A) (l : list B) (a : A) : M A :=
  match l with
  | [] => ret a
  | b :: l' => a' <- f a b ;; foldM f l' a'
  end.

(** [array.some(f)] with an effectful callback: stops at the first hit. *)
Fixpoint someM {A} (f : A -> M bool) (l : list A) : M bool :=
  match l with
  | [] => ret false
  | a :: l' => b <- f a ;; if b then ret true else someM f l'
  end.

(** [array.filter(f)] with an effectful callback. *)
Fixpoint filterM {A} (f : A -> M bool) (l : list A) : M (list A) :=
  match l with
  | [] => ret []
  | a :: l' =>
      b <- f a ;;
      rest <- filterM f l' ;;
      ret (if b then a :: rest else rest)
  end.

(** *** Property access *)

Definition type_error {A} (message : string) : M A := throw (ThrowError message).

(** Own property [key] of [v] in store [h]; primitives, arrays and
    functions have none here. *)
Definition prop (h : store) (v : value) (key : string) : value :=
  match v with
  | VObj l => default VUndefined ((h !!! l : object) !! key)
  | _ => VUndefined
  end.

(** The store after [l[key] = x]. *)
Definition assign (h : store) (l : loc) (key : string) (x : value) : store :=
  <[l := <[key := x]> (h !!! l : object)]> h.

(** [v[key]] *)
Definition get_prop (v : value) (key : string) : M value :=
  fun w =>
    match v with
    | VUndefined | VNull =>
        (Throw (ThrowError "Cannot read properties of undefined or null"), w)
    | _ => (Return (prop (heap w) v key), w)
    end.

(** [v[key] = x] in strict-mode code (a module is strict): the
    assignment to a property of a frozen object throws. *)
Definition set_prop (env : Env) (v : value) (key : string) (x : value) : M unit :=
  fun w =>
    match v with
    | VObj l =>
        if frozen env l
        then (Throw (ThrowError ("Cannot assign to read only property '" ++ key
                                 ++ "' of object '#<Object>'")), w)
        else (Return tt, with_heap w (assign (heap w) l key x))
    | VUndefined | VNull =>
        (Throw (ThrowError "Cannot set properties of undefined or null"), w)
    | VFun _ | VArr _ | VIter _ => (Return tt, w)
    | _ => (Throw (ThrowError "Cannot create property on a primitive"), w)
    end.

(** A value with a [Symbol.iterator] method: arrays, strings and the
    other iterable objects; numbers, booleans, functions and plain
    objects have none. *)
Definition iterable (v : value) : bool :=
  match v with
  | VArr _ | VStr _ | VIter _ => true
  | _ => false
  end.

(** [...v] in an argument list: the values that iterating [v] yields (a
    string yields its characters); a value that is not iterable makes
    the spread throw. *)
Definition spread (v : value) : M (list value) :=
  match v with
  | VArr elems | VIter elems => ret elems
  | VStr s => ret (map (fun c => VStr (String c EmptyString)) (list_ascii_of_string s))
  | _ => type_error "Spread syntax requires an iterable"
  end.

(** *** [RegExp.prototype.test] *)

Definition set_lastIndex (id n : nat) : M unit :=
  fun w =>
    (Return tt,
     {| heap := heap w; lastIndex := <[id := n]> (lastIndex w); trace := trace w |}).

Definition re_test (R : RegExp) (S : string) : M bool :=
  fun w =>
    let stateful := re_global R || re_sticky R in
    let last := if stateful then default 0 (lastIndex w !! re_id R) else 0 in
    let reset := if stateful then set_lastIndex (re_id R) 0 else ret tt in
    if (String.length S <? last)%nat then (reset ;; ret false) w
    else
      let r := if re_sticky R then re_matcher R S last
               else re_search (re_matcher R) S (String.length S - last) last in
      match r with
      | None => (reset ;; ret false) w
      | Some e => ((if stateful then set_lastIndex (re_id R) e else ret tt) ;; ret true) w
      end.

(** ** The loader *)

Record Options := {
  opt_prefix : option string;
  opt_fileExtensions : option (list string);
  opt_ignorePatterns : option (list RegExp)
}.

Definition no_options : Options :=
  {| opt_prefix := None; opt_fileExtensions := None; opt_ignorePatterns := None |}.

Definition new_Router : Router := [].

(** [array.includes(x)] on an array of strings. *)
Definition includes (x : string) (l : list string) : bool :=
  existsb (String.eqb x) l.

Definition directory_error (absolute_path : string) : thrown :=
  ThrowError ("路由目录不存在或无法访问: " ++ absolute_path).

Definition invalid_warning (file : string) : list value :=
  [VStr ("跳过无效的路由文件: " ++ file ++ " - 缺少必要的导出属性")].

Definition failure_warning (file : string) (message : value) : list value :=
  [VStr ("加载路由文件失败: " ++ file); message].

(** [pkg.path.startsWith('/') ? pkg.path : '/' + pkg.path] *)
Definition leading_slash (p : string) : string :=
  if JSString.startsWith_slash p then p else "/" ++ p.

Section Loader.
Context `{PathOps} (env : Env).

Definition access (path : string) : M unit :=
  emit (EvAccess path) ;;
  if fs_access env path then ret tt
  else throw (ThrowError ("ENOENT: no such file or directory, access " ++ path)).

Definition readdir (path : string) : M (list Dirent) :=
  emit (EvReaddir path) ;; lift_result (fs_readdir env path).

(** [(await import(file)).default] *)
Definition import_ (file : string) : M value :=
  emit (EvImport file) ;; lift_result (import_default env file).

Definition console_warn (args : list value) : M unit := emit (EvWarn args).

(** [path.join(...args)]: every argument must be a string. *)
Definition path_join (args : list value) : M string :=
  if forallb is_string args then
    ret (join (omap (fun v => match v with VStr s => Some s | _ => None end) args))
  else type_error "The path argument must be of type string".

(** Reading a property on which a string method is then called. *)
Definition read_string (v : value) (key : string) : M string :=
  x <- get_prop v key ;;
  match x with
  | VStr s => ret s
  | _ => type_error "not a function"
  end.

(** [router.register(path, methods, ...handlers)]: the router either
    throws or pushes one layer on its stack. *)
Definition register (router : Router) (path : string) (methods : value)
    (handlers : list value) : M Router :=
  emit (EvRegister path methods handlers) ;;
  match router_check env path methods handlers with
  | Some message => throw (ThrowError message)
  | None =>
      ret (router ++ [{| layer_path := path; layer_methods := methods;
                         layer_middleware := handlers |}])%list
  end.

(** [!pkg || !pkg.path || !pkg.methods || !pkg.handlers] *)
Definition invalid (pkg : value) : M bool :=
  if negb (truthy pkg) then ret true
  else
    p <- get_prop pkg "path" ;;
    if negb (truthy p) then ret true
    else
      m <- get_prop pkg "methods" ;;
      if negb (truthy m) then ret true
      else
        h <- get_prop pkg "handlers" ;;
        ret (negb (truthy h)).

(** [error.message] in the [catch] clause. *)
Definition error_message (error : thrown) : M value :=
  match error with
  | ThrowError message => ret (VStr message)
  | ThrowValue v => get_prop v "message"
  end.

(** The body of the [try] block for one file. *)
Definition load_body (prefix absolute_path : string) (router : Router)
    (file : string) : M Router :=
  pkg <- import_ file ;;
  bad <- invalid pkg ;;
  if bad then
    console_warn (invalid_warning file) ;;
    ret router
  else
    declared <- get_prop pkg "path" ;;
    joined <- path_join [VStr prefix;
                         VStr (relative (cwd env) absolute_path (dirname file));
                         declared] ;;
    set_prop env pkg "path" (VStr joined) ;;
    p1 <- read_string pkg "path" ;;
    set_prop env pkg "path" (VStr (JSString.replaceAll_backslash p1)) ;;
    p2 <- read_string pkg "path" ;;
    set_prop env pkg "path" (VStr (leading_slash p2)) ;;
    p3 <- read_string pkg "path" ;;
    methods <- get_prop pkg "methods" ;;
    handlers <- get_prop pkg "handlers" ;;
    args <- spread handlers ;;
    register router p3 methods args.

(** One iteration of [for (const file of filteredFiles)]. *)
Definition load_file (prefix absolute_path : string) (router : Router)
    (file : string) : M Router :=
  try_catch (load_body prefix absolute_path router file)
    (fun error =>
       message <- error_message error ;;
       console_warn (failure_warning file message) ;;
       ret router).

(** [p.isFile() && fileExtensions.includes(path.extname(p.name))] *)
Definition wanted (fileExtensions : list string) (p : Dirent) : bool :=
  isFile p && includes (extname (d_name p)) fileExtensions.

Definition full_path (p : Dirent) : string := join [d_parentPath p; d_name p].

(** The two pure steps on the directory listing. *)
Definition discover (fileExtensions : list string) (entries : list Dirent) : list string :=
  map full_path (List.filter (wanted fileExtensions) entries).

(** [!ignorePatterns.some((pattern) => pattern.test(file))] *)
Definition not_ignored (ignorePatterns : list RegExp) (file : string) : M bool :=
  hit <- someM (fun pattern => re_test pattern file) ignorePatterns ;;
  ret (negb hit).

Definition resolve_dir (routers_dir : string) : string :=
  if isAbsolute routers_dir then routers_dir else join [cwd env; routers_dir].

(** The default export of [src/index.js]. *)
Definition loadRouters (routers_dir : string) (options : Options) : M Router :=
  let prefix := default "" (opt_prefix options) in
  let fileExtensions := default [".js"; ".ts"] (opt_fileExtensions options) in
  let ignorePatterns := default [] (opt_ignorePatterns options) in
  let absolute_path := resolve_dir routers_dir in
  try_catch (access absolute_path)
    (fun _ => throw (directory_error absolute_path)) ;;
  files <- readdir absolute_path ;;
  let files := discover fileExtensions files in
  filteredFiles <- filterM (not_ignored ignorePatterns) files ;;
  foldM (load_file prefix absolute_path) filteredFiles new_Router.

(** What follows the access check in [loadRouters]. *)
Definition after_access (prefix : string) (fileExtensions : list string)
    (ignorePatterns : list RegExp) (absolute_path : string) : M Router :=
  files <- readdir absolute_path ;;
  filteredFiles <- filterM (not_ignored ignorePatterns)
                     (discover fileExtensions files) ;;
  foldM (load_file prefix absolute_path) filteredFiles new_Router.

End Loader.

(** ** A concrete host for closed examples

    A router whose [register] makes the checks of the [Layer]
    constructor of [@koa/router]: [methods] is iterated and every
    element upper-cased, and the third argument (the first handler) must
    be a function or an array of functions. *)
Module Demo.

Definition koa_check (path : string) (methods : value) (handlers : list value)
  : option string :=
  let methods_ok :=
    match methods with
    | VArr ms => forallb is_string ms
    | VStr _ => true
    | _ => false
    end in
  let middleware := default VUndefined (head handlers) in
  let stack := match middleware with VArr fs => fs | v => [v] end in
  if negb methods_ok then Some "methods is not iterable"
  else if forallb is_function stack then None
  else Some "middleware must be a function".

Definition handler : value := VFun "handler".

Definition descriptor (path : string) (methods handlers : list value) : object :=
  <["path" := VStr path]> (<["methods" := VArr methods]> (<["handlers" := VArr handlers]> ∅)).

(** Pattern [/\.test\.js$/]: a match starting at [i] exists when the rest
    of the string from [i] is exactly [.test.js]. *)
Definition suffix_matcher (suffix : string) (s : string) (i : nat) : option nat :=
  if String.eqb (substring i (String.length s - i) s) suffix
  then Some (String.length s) else None.

(** Pattern made of literal characters: a match starting at [i] exists
    when the string continues with them. *)
Definition literal_matcher (lit : string) (s : string) (i : nat) : option nat :=
  if String.eqb (substring i (String.length lit) s) lit
  then Some (i + String.length lit)%nat else None.

Definition test_js : RegExp :=
  {| re_id := 0; re_matcher := suffix_matcher ".test.js";
     re_global := false; re_sticky := false |}.

Definition global_resource : RegExp :=
  {| re_id := 1; re_matcher := literal_matcher "resource";
     re_global := true; re_sticky := false |}.

Definition file_in (dir name : string) : Dirent :=
  {| d_name := name; d_parentPath := dir; d_kind := KFile |}.

Definition dir_in (dir name : string) : Dirent :=
  {| d_name := name; d_parentPath := dir; d_kind := KDirectory |}.

(** The directories of the host: the one of the test suite, a nested
    layout, and directories holding unusual route files. *)
Definition directories : list (string * list Dirent) :=
  [ ("/app/test_routers",
      [ file_in "/app/test_routers" "user.login.js";
        file_in "/app/test_routers" "resource.get.js";
        file_in "/app/test_routers" "resource.create.js";
        file_in "/app/test_routers" "resource.delete.ts";
        file_in "/app/test_routers" "ignore.test.js" ]);
    ("/app/routes",
      [ file_in "/app/routes" "login.js";
        dir_in "/app/routes" "v1";
        file_in "/app/routes" "notes.md";
        file_in "/app/routes/v1" "resource.js";
        {| d_name := "latest.js"; d_parentPath := "/app/routes"; d_kind := KSymbolicLink |} ]);
    ("/app/skip",
      [ file_in "/app/skip" "export-none.js";
        file_in "/app/skip" "no-methods.js";
        file_in "/app/skip" "boom.js";
        file_in "/app/skip" "thrown-string.js";
        file_in "/app/skip" "ok.js" ]);
    ("/app/empty-methods", [ file_in "/app/empty-methods" "all.js" ]);
    ("/app/fatal", [ file_in "/app/fatal" "null.js"; file_in "/app/fatal" "ok.js" ]);
    ("/app/dots", [ file_in "/app/dots" "up.js" ]);
    ("/app/slashes", [ file_in "/app/slashes" "bs.js" ]);
    ("/app/hidden", [ file_in "/app/hidden" ".js" ]) ].

(** The default export of every module of the host. *)
Definition module_table : list (string * result value) :=
  [ ("/app/test_routers/user.login.js", Return (VObj 1));
    ("/app/test_routers/resource.get.js", Return (VObj 2));
    ("/app/test_routers/resource.create.js", Return (VObj 3));
    ("/app/test_routers/resource.delete.ts", Return (VObj 4));
    ("/app/test_routers/ignore.test.js", Return (VObj 5));
    ("/app/routes/login.js", Return (VObj 6));
    ("/app/routes/v1/resource.js", Return (VObj 7));
    ("/app/skip/export-none.js", Return VUndefined);
    ("/app/skip/no-methods.js", Return (VObj 8));
    ("/app/skip/boom.js", Throw (ThrowError "boom"));
    ("/app/skip/thrown-string.js", Throw (ThrowValue (VStr "oops")));
    ("/app/skip/ok.js", Return (VObj 9));
    ("/app/empty-methods/all.js", Return (VObj 10));
    ("/app/fatal/null.js", Throw (ThrowValue VNull));
    ("/app/fatal/ok.js", Return (VObj 9));
    ("/app/dots/up.js", Return (VObj 11));
    ("/app/slashes/bs.js", Return (VObj 12));
    ("/app/hidden/.js", Return (VObj 9)) ]%positive.

Fixpoint assoc {A} (key : string) (table : list (string * A)) : option A :=
  match table with
  | [] => None
  | (k, a) :: table' => if String.eqb k key then Some a else assoc key table'
  end.

Definition exports : store :=
  list_to_map
    [ (1, descriptor "/login" [VStr "post"] [handler]);
      (2, descriptor "/resource/:id" [VStr "get"] [handler]);
      (3, descriptor "/resource" [VStr "post"] [handler]);
      (4, descriptor "/resource/:id" [VStr "delete"] [handler]);
      (5, descriptor "/ignore" [VStr "get"] [handler]);
      (6, descriptor "login" [VStr "post"] [handler]);
      (7, descriptor "resource" [VStr "post"; VStr "delete"] [VFun "auth"; handler]);
      (8, <["path" := VStr "/partial"]> (<["handlers" := VArr [handler]]> ∅));
      (9, descriptor "/ok" [VStr "get"] [handler]);
      (10, descriptor "/all" [] [handler]);
      (11, descriptor "../admin" [VStr "get"] [handler]);
      (12, descriptor "\/x" [VStr "get"] [handler]) ]%positive.

Definition host : Env :=
  {| cwd := "/app";
     fs_access := fun p => bool_decide (is_Some (assoc p directories));
     fs_readdir := fun p =>
       match assoc p directories with
       | Some entries => Return entries
       | None => Throw (ThrowError "ENOENT: no such file or directory, scandir")
       end;
     import_default := fun file =>
       default (Throw (ThrowError "Cannot find module")) (assoc file module_table);
     frozen := fun _ => false;
     router_check := koa_check |}.

Definition start : World := {| heap := exports; lastIndex := ∅; trace := [] |}.

Definition with_prefix (prefix : string) : Options :=
  {| opt_prefix := Some prefix; opt_fileExtensions := None; opt_ignorePatterns := None |}.

Definition ignoring (patterns : list RegExp) : Options :=
  {| opt_prefix := None; opt_fileExtensions := None; opt_ignorePatterns := Some patterns |}.

Definition paths (r : result Router) : list string :=
  match r with
  | Return router => map layer_path router
  | Throw _ => []
  end.

End Demo.

(** ** The route path, as the specification words it

    The join, in order, of the prefix, the directory of the file relative
    to the root and the declared path, with backslashes turned into
    slashes and a slash put in front when there is none. *)
Definition route_path `{PathOps} (env : Env) (prefix absolute_path file declared : string)
  : string :=
  leading_slash
    (JSString.replaceAll_backslash
       (join [prefix; relative (cwd env) absolute_path (dirname file); declared])).

(** The validity test of the loader, read off the store. *)
Definition descriptor_falsy (h : store) (pkg : value) : bool :=
  negb (truthy pkg) || negb (truthy (prop h pkg "path"))
  || negb (truthy (prop h pkg "methods")) || negb (truthy (prop h pkg "handlers")).

Definition nullish (v : value) : bool :=
  match v with VUndefined | VNull => true | _ => false end.

(** The outcomes of one iteration of the loop over the files, from world
    [w] with router [router]: the [catch] clause itself throws; the file
    is skipped with the store untouched; the file is skipped after its
    descriptor's path was rewritten, because its handlers cannot be spread
    or because the router refuses the registration; the file is
    registered. *)
Inductive step_result `{PathOps} (env : Env) (prefix absolute_path : string)
    (router : Router) (file : string) (w : World) : result Router * World -> Prop :=
| step_fatal v :
    import_default env file = Throw (ThrowValue v) ->
    nullish v = true ->
    step_result env prefix absolute_path router file w
      (Throw (ThrowError "Cannot read properties of undefined or null"),
       log w [EvImport file])
| step_skipped warning :
    step_result env prefix absolute_path router file w
      (Return router, log w [EvImport file; EvWarn warning])
| step_not_iterable l declared warning :
    import_default env file = Return (VObj l) ->
    prop (heap w) (VObj l) "path" = VStr declared ->
    step_result env prefix absolute_path router file w
      (Return router,
       log (with_heap w (assign (heap w) l "path"
                           (VStr (route_path env prefix absolute_path file declared))))
         [EvImport file; EvWarn warning])
| step_refused l declared args message :
    import_default env file = Return (VObj l) ->
    prop (heap w) (VObj l) "path" = VStr declared ->
    let p := route_path env prefix absolute_path file declared in
    let methods := prop (heap w) (VObj l) "methods" in
    router_check env p methods args = Some message ->
    step_result env prefix absolute_path router file w
      (Return router,
       log (with_heap w (assign (heap w) l "path" (VStr p)))
         [EvImport file; EvRegister p methods args;
          EvWarn (failure_warning file (VStr message))])
| step_registered l declared args :
    import_default env file = Return (VObj l) ->
    prop (heap w) (VObj l) "path" = VStr declared ->
    JSString.is_empty declared = false ->
    truthy (prop (heap w) (VObj l) "methods") = true ->
    truthy (prop (heap w) (VObj l) "handlers") = true ->
    spread (prop (heap w) (VObj l) "handlers") w = (Return args, w) ->
    let p := route_path env prefix absolute_path file declared in
    let methods := prop (heap w) (VObj l) "methods" in
    router_check env p methods args = None ->
    step_result env prefix absolute_path router file w
      (Return (router ++ [{| layer_path := p; layer_methods := methods;
                             layer_middleware := args |}])%list,
       log (with_heap w (assign (heap w) l "path" (VStr p)))
         [EvImport file; EvRegister p methods args]).

(** A computation only appends to the trace of collaborator calls, and
    every call it appends satisfies [P]. *)
Definition emits {A} (P : event -> Prop) (c : M A) : Prop :=
  forall w r w', c w = (r, w') ->
    exists es, trace w' = (trace w ++ es)%list /\ Forall P es.

(** The calls the loop over [files] may make: imports of these files,
    warnings and registrations. *)
Definition loop_event (files : list string) (e : event) : Prop :=
  match e with
  | EvImport file => In file files
  | EvWarn _ | EvRegister _ _ _ => True
  | EvAccess _ | EvReaddir _ => False
  end.

(** The eligible files of a run: those that pass the extension filter and
    the ignore-pattern filter, in discovery order. *)
Definition eligible `{PathOps} (env : Env) (routers_dir : string) (options : Options)
    (w : World) : list string :=
  let absolute_path := resolve_dir env routers_dir in
  match fs_readdir env absolute_path with
  | Return entries =>
      match filterM (not_ignored (default [] (opt_ignorePatterns options)))
              (discover (default [".js"; ".ts"] (opt_fileExtensions options)) entries)
              (log w [EvAccess absolute_path; EvReaddir absolute_path]) with
      | (Return files, _) => files
      | (Throw _, _) => []
      end
  | Throw _ => []
  end.

(** The extension as the specification words it: the suffix of the file
    name that starts at its last [.], empty when the name has none. *)
Fixpoint suffix_from_last_dot (name : string) : string :=
  match name with
  | EmptyString => ""
  | String c rest =>
      if JSString.includes_char JSString.dot rest then suffix_from_last_dot rest
      else if Ascii.eqb c JSString.dot then name else ""
  end.

(** Names whose last [.] opens the name, and the name [..]: for these
    [path.extname] answers the empty string. *)
Definition dot_leads (name : string) : bool :=
  match name with
  | String c rest =>
      Ascii.eqb c JSString.dot
      && (negb (JSString.includes_char JSString.dot rest) || String.eqb rest ".")
  | EmptyString => false
  end.

(** The extension [path.extname] finds in a file name. *)
Definition file_extension (name : string) : string :=
  if dot_leads name then "" else suffix_from_last_dot name.

(** The segments [.] and [..], which [path.join] resolves. *)
Definition dot_segment (seg : string) : bool :=
  String.eqb seg "." || String.eqb seg "..".

(** A path none of whose segments is [.] or [..], a backslash counting
    as a separator like the slash it is going to be replaced with. *)
Definition no_dot_segment (p : string) : Prop :=
  Forall (fun seg => dot_segment seg = false)
    (JSString.split_slash (JSString.replaceAll_backslash p)).

(** The segments [normalizeString] keeps when no [..] is met. *)
Definition kept_segment (seg : string) : bool :=
  negb (String.eqb seg "" || String.eqb seg ".").

(** The pattern matches somewhere in the string (a search from index 0). *)
Definition matches (R : RegExp) (S : string) : bool :=
  match re_search (re_matcher R) S (String.length S) 0 with
  | Some _ => true
  | None => false
  end.

(** A pattern without the [g] and [y] flags: [test] leaves it untouched. *)
Definition stateless (R : RegExp) : Prop :=
  re_global R = false /\ re_sticky R = false.

(** A character of a file name that is neither a dot nor a slash. *)
Definition plain (c : ascii) : Prop := c <> JSString.dot /\ c <> JSString.slash.

(** A segment kept by [normalizeString]: not empty, without slash. *)
Definition solid (seg : string) : Prop :=
  seg <> "" /\ JSString.includes_char JSString.slash seg = false.

(** A segment that is neither [.] nor [..]. *)
Definition clean (seg : string) : Prop := dot_segment seg = false.

(** The route path lies under the prefix [/api]: it matches [^/api/]. *)
Definition under_api (layer : Layer) : Prop :=
  JSString.startsWith "/api/" (layer_path layer) = true.

(** The paths held by the objects that [files] export have no dot segment. *)
Definition clean_store (env : Env) (files : list string) (h : store) : Prop :=
  forall file l declared,
    In file files -> import_default env file = Return (VObj l) ->
    prop h (VObj l) "path" = VStr declared -> no_dot_segment declared.

(** The files of the [import()] calls among [es], in call order. *)
Definition imports (es : list event) : list string :=
  omap (fun e => match e with EvImport file => Some file | _ => None end) es.

Definition is_warning (e : event) : bool :=
  match e with EvWarn _ => true | _ => false end.

(** The number of [console.warn] calls among [es]. *)
Definition warnings (es : list event) : nat :=
  List.length (List.filter is_warning es).

(** A host whose root path names a regular file: it passes the access
    check and cannot be listed. *)
Module Edge.

Definition not_a_directory : thrown :=
  ThrowError "ENOTDIR: not a directory, scandir '/app/index.js'".

Definition file_root : Env :=
  {| cwd := "/app";
     fs_access := fun p => String.eqb p "/app/index.js";
     fs_readdir := fun _ => Throw not_a_directory;
     import_default := import_default Demo.host;
     frozen := fun _ => false;
     router_check := Demo.koa_check |}.

(** A directory of route files with unusual descriptors: a numeric
    [path], a handler that is not a function, [handlers] that cannot be
    spread, and two files that export one and the same object. *)
Definition odd_exports : store :=
  list_to_map
    [ (1, <["path" := VNum 42]>
            (<["methods" := VArr [VStr "get"]]> (<["handlers" := VArr [Demo.handler]]> ∅)));
      (2, Demo.descriptor "/refused" [VStr "get"] [VStr "not a function"]);
      (3, <["path" := VStr "/flag"]>
            (<["methods" := VArr [VStr "get"]]> (<["handlers" := VBool true]> ∅)));
      (4, Demo.descriptor "/shared" [VStr "get"] [Demo.handler]) ]%positive.

Definition odd_modules : list (string * result value) :=
  [ ("/app/odd/number.js", Return (VObj 1));
    ("/app/odd/refused.js", Return (VObj 2));
    ("/app/odd/flag.js", Return (VObj 3));
    ("/app/odd/alias-a.js", Return (VObj 4));
    ("/app/odd/alias-b.js", Return (VObj 4)) ]%positive.

Definition odd : Env :=
  {| cwd := "/app";
     fs_access := fun p => String.eqb p "/app/odd";
     fs_readdir := fun p =>
       if String.eqb p "/app/odd"
       then Return (map (Demo.file_in "/app/odd")
                      ["number.js"; "refused.js"; "flag.js"; "alias-a.js"; "alias-b.js"])
       else Throw (ThrowError "ENOENT: no such file or directory, scandir");
     import_default := fun file =>
       default (Throw (ThrowError "Cannot find module")) (Demo.assoc file odd_modules);
     frozen := fun _ => false;
     router_check := Demo.koa_check |}.

Definition odd_start : World := {| heap := odd_exports; lastIndex := ∅; trace := [] |}.

(** A directory that exists but that the process may not read. *)
Definition permission_denied : thrown :=
  ThrowError "EACCES: permission denied, scandir '/app/private'".

Definition locked : Env :=
  {| cwd := "/app";
     fs_access := fun p => String.eqb p "/app/private";
     fs_readdir := fun _ => Throw permission_denied;
     import_default := import_default Demo.host;
     frozen := fun _ => false;
     router_check := Demo.koa_check |}.

(** A directory of three valid descriptors, on a host where the second
    one is frozen and whose router refuses a path with an unnamed
    wildcard. *)
Definition strict_exports : store :=
  list_to_map
    [ (1, Demo.descriptor "/files/*" [VStr "get"] [Demo.handler]);
      (2, Demo.descriptor "/sealed" [VStr "get"] [Demo.handler]);
      (3, Demo.descriptor "/open" [VStr "get"] [Demo.handler]) ]%positive.

Definition strict_modules : list (string * result value) :=
  [ ("/app/strict/files.js", Return (VObj 1));
    ("/app/strict/sealed.js", Return (VObj 2));
    ("/app/strict/open.js", Return (VObj 3)) ]%positive.

Definition strict_entries : list Dirent :=
  map (Demo.file_in "/app/strict") ["files.js"; "sealed.js"; "open.js"].

Definition wildcard_check (path : string) (methods : value) (handlers : list value)
  : option string :=
  if JSString.includes_char "*"%char path then Some "Missing parameter name"
  else Demo.koa_check path methods handlers.

Definition strict : Env :=
  {| cwd := "/app";
     fs_access := fun p => String.eqb p "/app/strict";
     fs_readdir := fun p =>
       if String.eqb p "/app/strict" then Return strict_entries
       else Throw (ThrowError "ENOENT: no such file or directory, scandir");
     import_default := fun file =>
       default (Throw (ThrowError "Cannot find module")) (Demo.assoc file strict_modules);
     frozen := fun l => Pos.eqb l 2;
     router_check := wildcard_check |}.

Definition strict_start : World := {| heap := strict_exports; lastIndex := ∅; trace := [] |}.

End Edge.

(** What a run over [files] may do to the module store: properties other
    than [path] keep their values, objects that no file exports are
    untouched, and a [path] either keeps its value or becomes a string
    that starts with a slash and has no backslash. *)
Definition store_frame (env : Env) (files : list string) (h h' : store) : Prop :=
  (forall l key, key <> "path" -> prop h' (VObj l) key = prop h (VObj l) key)
  /\ (forall l, (forall file, In file files -> import_default env file <> Return (VObj l)) ->
        h' !! l = h !! l)
  /\ (forall l, prop h' (VObj l) "path" = prop h (VObj l) "path"
        \/ exists s, prop h' (VObj l) "path" = VStr s
                     /\ JSString.startsWith_slash s = true
                     /\ JSString.includes_char JSString.backslash s = false).

(** An accessible root, as the specification words it: the path exists
    and is readable, that is, it can be listed. *)
Definition accessible (env : Env) (path : string) : Prop :=
  fs_access env path = true /\ exists entries, fs_readdir env path = Return entries.

(** A valid descriptor, as the route-file contract has it: the object
    at [l] holds a non-empty path string, a non-empty array of method
    names and a non-empty array of handler functions. *)
Definition valid_descriptor (h : store) (l : loc) (path : string)
    (methods handlers : list value) : Prop :=
  prop h (VObj l) "path" = VStr path /\ path <> ""
  /\ prop h (VObj l) "methods" = VArr methods
  /\ methods <> [] /\ forallb is_string methods = true
  /\ prop h (VObj l) "handlers" = VArr handlers
  /\ handlers <> [] /\ forallb is_function handlers = true.

(** An eligible entry of a listing, as the specification words it: a
    regular file whose extension is a member of [fileExtensions] and
    whose full path no ignore pattern matches. *)
Definition eligible_entry `{PathOps} (fileExtensions : list string)
    (ignorePatterns : list RegExp) (p : Dirent) : bool :=
  isFile p && includes (file_extension (d_name p)) fileExtensions
  && negb (existsb (fun pattern => matches pattern (full_path p)) ignorePatterns).

(** The eligible files of a listing, in listing order. *)
Definition eligible_files `{PathOps} (fileExtensions : list string)
    (ignorePatterns : list RegExp) (entries : list Dirent) : list string :=
  map full_path (List.filter (eligible_entry fileExtensions ignorePatterns) entries).

(** The calls that register [files] one after the other, starting from
    store [h]: each file, when its turn comes, exports a valid
    descriptor that is not frozen and that the router accepts under the
    route path computed for it; the file is imported, then registered
    with that path, the exported methods and the handlers.  The store is
    threaded along because a registration writes the route path into the
    exported object, which a later file may export as well. *)
Inductive registered_in_turn `{PathOps} (env : Env) (prefix absolute_path : string)
  : store -> list string -> list event -> Prop :=
| in_turn_nil h : registered_in_turn env prefix absolute_path h [] []
| in_turn_cons h file files l path methods handlers es :
    import_default env file = Return (VObj l) ->
    valid_descriptor h l path methods handlers ->
    frozen env l = false ->
    router_check env (route_path env prefix absolute_path file path)
      (VArr methods) handlers = None ->
    registered_in_turn env prefix absolute_path
      (assign h l "path" (VStr (route_path env prefix absolute_path file path)))
      files es ->
    registered_in_turn env prefix absolute_path h (file :: files)
      (EvImport file
       :: EvRegister (route_path env prefix absolute_path file path)
            (VArr methods) handlers
       :: es).

(** The paths of the [register] calls among [es], in call order. *)
Definition registered_paths (es : list event) : list string :=
  omap (fun e => match e with EvRegister path _ _ => Some path | _ => None end) es.

(** A route path as the loader hands it to the router: it starts with a
    slash and holds no backslash. *)
Definition slashed (layer : Layer) : Prop :=
  JSString.startsWith_slash (layer_path layer) = true
  /\ JSString.includes_char JSString.backslash (layer_path layer) = false.


(** The module behind [file] threw [undefined] or [null]. *)
Definition throws_nullish (env : Env) (file : string) : Prop :=
  exists v, import_default env file = Throw (ThrowValue v) /\ nullish v = true.

(** * Properties *)

(** ** The POSIX model on the examples of the Node.js documentation *)

Example join_documented :
  Posix.join ["/foo"; "bar"; "baz/asdf"; "quux"; ".."] = "/foo/bar/baz/asdf".
Proof. reflexivity. Qed.

Example normalize_documented :
  Posix.normalize "/foo/bar//baz/asdf/quux/.." = "/foo/bar/baz/asdf".
Proof. reflexivity. Qed.

Example relative_documented :
  Posix.relative "/" "/data/orandea/test/aaa" "/data/orandea/impl/bbb" = "../../impl/bbb".
Proof. reflexivity. Qed.

Example dirname_documented :
  Posix.dirname "/foo/bar/baz/asdf/quux" = "/foo/bar/baz/asdf".
Proof. reflexivity. Qed.

Example extname_documented :
  map Posix.extname ["index.html"; "index.coffee.md"; "index."; "index"; ".index"; ".index.md"]
  = [".html"; ".md"; "."; ""; ""; ".md"].
Proof. reflexivity. Qed.

Example isAbsolute_documented :
  map Posix.isAbsolute ["/foo/bar"; "/baz/.."; "qux/"; "."] = [true; true; false; false].
Proof. reflexivity. Qed.

(** ** Worlds and the monad *)

Lemma log_log w es1 es2 : log (log w es1) es2 = log w (es1 ++ es2)%list.
Proof. unfold log; simpl. by rewrite <- app_assoc. Qed.

Lemma log_nil w : log w [] = w.
Proof. destruct w; unfold log; simpl. by rewrite app_nil_r. Qed.

Lemma heap_log w es : heap (log w es) = heap w.
Proof. reflexivity. Qed.

Lemma heap_log_with_heap w h es : heap (log (with_heap w h) es) = h.
Proof. reflexivity. Qed.

Lemma get_prop_defined v key w :
  nullish v = false -> get_prop v key w = (Return (prop (heap w) v key), w).
Proof. by destruct v. Qed.

Lemma truthy_not_nullish v : truthy v = true -> nullish v = false.
Proof. by destruct v. Qed.

(** A truthy property can only be read off a stored object. *)
Lemma truthy_prop_object h v key :
  truthy (prop h v key) = true -> exists l, v = VObj l.
Proof. destruct v; simpl; try discriminate. eauto. Qed.

Lemma prop_assign_eq h l key x : prop (assign h l key x) (VObj l) key = x.
Proof.
  unfold prop, assign. rewrite lookup_total_insert_eq, lookup_insert_eq. reflexivity.
Qed.

Lemma prop_assign_other_key h l key key' x :
  key <> key' -> prop (assign h l key x) (VObj l) key' = prop h (VObj l) key'.
Proof.
  intros Hne. unfold prop, assign.
  rewrite lookup_total_insert_eq, lookup_insert_ne by done. reflexivity.
Qed.

Lemma prop_assign_other_object h l l' key key' x :
  l <> l' -> prop (assign h l key x) (VObj l') key' = prop h (VObj l') key'.
Proof.
  intros Hne. unfold prop, assign.
  rewrite lookup_total_insert_ne by done. reflexivity.
Qed.

Lemma assign_assign h l key x y :
  assign (assign h l key x) l key y = assign h l key y.
Proof.
  unfold assign.
  rewrite lookup_total_insert_eq, insert_insert_eq, insert_insert_eq. reflexivity.
Qed.

Lemma bind_run {A B} (c : M A) (k : A -> M B) w a w' :
  c w = (Return a, w') -> bind c k w = k a w'.
Proof. intros Hc. unfold bind. by rewrite Hc. Qed.

Lemma bind_throw {A B} (c : M A) (k : A -> M B) w e w' :
  c w = (Throw e, w') -> bind c k w = (Throw e, w').
Proof. intros Hc. unfold bind. by rewrite Hc. Qed.

Lemma try_catch_run {A} (c : M A) handler w a w' :
  c w = (Return a, w') -> try_catch c handler w = (Return a, w').
Proof. intros Hc. unfold try_catch. by rewrite Hc. Qed.

Lemma try_catch_throw {A} (c : M A) handler w e w' :
  c w = (Throw e, w') -> try_catch c handler w = handler e w'.
Proof. intros Hc. unfold try_catch. by rewrite Hc. Qed.

Lemma spread_pure v w :
  (exists args, spread v w = (Return args, w))
  \/ spread v w = (Throw (ThrowError "Spread syntax requires an iterable"), w).
Proof. destruct v; simpl; eauto. Qed.

Section Steps.
Context `{PathOps} (env : Env).

Lemma load_file_import_error prefix ap router file w message :
  import_default env file = Throw (ThrowError message) ->
  load_file env prefix ap router file w
  = (Return router,
     log w [EvImport file; EvWarn (failure_warning file (VStr message))]).
Proof.
  intros Himp. unfold load_file, load_body, try_catch, bind, import_, emit, lift_result.
  rewrite Himp. simpl. unfold bind, console_warn, emit, ret. simpl.
  by rewrite log_log.
Qed.

Lemma load_file_import_thrown prefix ap router file w v :
  import_default env file = Throw (ThrowValue v) ->
  nullish v = false ->
  load_file env prefix ap router file w
  = (Return router,
     log w [EvImport file; EvWarn (failure_warning file (prop (heap w) v "message"))]).
Proof.
  intros Himp Hv. unfold load_file, load_body, try_catch, bind, import_, emit, lift_result.
  rewrite Himp. simpl. unfold bind. rewrite get_prop_defined by done.
  unfold console_warn, emit, ret. simpl. by rewrite log_log.
Qed.

Lemma load_file_import_nullish prefix ap router file w v :
  import_default env file = Throw (ThrowValue v) ->
  nullish v = true ->
  load_file env prefix ap router file w
  = (Throw (ThrowError "Cannot read properties of undefined or null"),
     log w [EvImport file]).
Proof.
  intros Himp Hv. unfold load_file, load_body, try_catch, bind, import_, emit, lift_result.
  rewrite Himp. simpl. unfold bind. by destruct v.
Qed.

Lemma invalid_spec pkg w :
  invalid pkg w = (Return (descriptor_falsy (heap w) pkg), w).
Proof.
  unfold invalid, descriptor_falsy.
  destruct (truthy pkg) eqn:Hpkg; simpl; [|reflexivity].
  apply truthy_not_nullish in Hpkg.
  unfold bind. rewrite get_prop_defined by done.
  destruct (truthy (prop (heap w) pkg "path")); simpl; [|reflexivity].
  rewrite get_prop_defined by done.
  destruct (truthy (prop (heap w) pkg "methods")); simpl; [|reflexivity].
  by rewrite get_prop_defined by done.
Qed.

Lemma load_file_invalid prefix ap router file w pkg :
  import_default env file = Return pkg ->
  descriptor_falsy (heap w) pkg = true ->
  load_file env prefix ap router file w
  = (Return router, log w [EvImport file; EvWarn (invalid_warning file)]).
Proof.
  intros Himp Hbad. unfold load_file, load_body, try_catch, bind, import_, emit, lift_result.
  rewrite Himp. simpl. rewrite invalid_spec. simpl. rewrite Hbad.
  unfold console_warn, emit, ret. simpl. by rewrite log_log.
Qed.

Lemma read_string_assigned l key s w h :
  heap w = assign h l key (VStr s) ->
  read_string (VObj l) key w = (Return s, w).
Proof.
  intros Hh. unfold read_string, bind, get_prop. rewrite Hh, prop_assign_eq. reflexivity.
Qed.

(** The three assignments to [pkg.path] amount to storing the route
    path of the specification. *)
Lemma rewrite_path_spec prefix ap file l declared (k : string -> M Router) w :
  prop (heap w) (VObj l) "path" = VStr declared ->
  frozen env l = false ->
  (declared0 <- get_prop (VObj l) "path" ;;
   joined <- path_join [VStr prefix;
                        VStr (relative (cwd env) ap (dirname file));
                        declared0] ;;
   set_prop env (VObj l) "path" (VStr joined) ;;
   p1 <- read_string (VObj l) "path" ;;
   set_prop env (VObj l) "path" (VStr (JSString.replaceAll_backslash p1)) ;;
   p2 <- read_string (VObj l) "path" ;;
   set_prop env (VObj l) "path" (VStr (leading_slash p2)) ;;
   p3 <- read_string (VObj l) "path" ;;
   k p3) w
  = k (route_path env prefix ap file declared)
      (with_heap w (assign (heap w) l "path"
                      (VStr (route_path env prefix ap file declared)))).
Proof.
  intros Hdecl Hwritable.
  unfold bind at 1. rewrite get_prop_defined by done. rewrite Hdecl.
  unfold bind at 1. unfold path_join. simpl.
  unfold bind at 1. simpl. rewrite Hwritable.
  unfold bind at 1. erewrite read_string_assigned by reflexivity.
  unfold bind at 1. simpl. rewrite Hwritable.
  unfold bind at 1. erewrite read_string_assigned by reflexivity.
  unfold bind at 1. simpl. rewrite Hwritable.
  unfold bind at 1. erewrite read_string_assigned by reflexivity.
  unfold with_heap; simpl. rewrite !assign_assign. reflexivity.
Qed.

Lemma load_file_not_string prefix ap router file w l :
  import_default env file = Return (VObj l) ->
  descriptor_falsy (heap w) (VObj l) = false ->
  is_string (prop (heap w) (VObj l) "path") = false ->
  load_file env prefix ap router file w
  = (Return router,
     log w [EvImport file;
            EvWarn (failure_warning file
                      (VStr "The path argument must be of type string"))]).
Proof.
  intros Himp Hok Hstr.
  unfold load_file. erewrite try_catch_throw.
  2:{ unfold load_body.
      erewrite bind_run by (unfold import_, bind, emit, lift_result; by rewrite Himp).
      erewrite bind_run by apply invalid_spec.
      rewrite heap_log, Hok.
      erewrite bind_run by by apply get_prop_defined.
      apply bind_throw. unfold path_join, forallb, is_string at 1 2.
      rewrite heap_log, Hstr. reflexivity. }
  unfold bind, error_message, console_warn, emit, ret. simpl. by rewrite log_log.
Qed.

(** A frozen descriptor: the first assignment to [pkg.path] throws
    inside the [try] block, after [path.join] went through. *)
Lemma load_file_frozen prefix ap router file w l declared :
  import_default env file = Return (VObj l) ->
  descriptor_falsy (heap w) (VObj l) = false ->
  prop (heap w) (VObj l) "path" = VStr declared ->
  frozen env l = true ->
  load_file env prefix ap router file w
  = (Return router,
     log w [EvImport file;
            EvWarn (failure_warning file
                      (VStr "Cannot assign to read only property 'path' of object '#<Object>'"))]).
Proof.
  intros Himp Hok Hdecl Hfrozen.
  unfold load_file. erewrite try_catch_throw.
  2:{ unfold load_body.
      erewrite bind_run by (unfold import_, bind, emit, lift_result; by rewrite Himp).
      erewrite bind_run by apply invalid_spec.
      rewrite heap_log, Hok.
      erewrite bind_run by by apply get_prop_defined.
      rewrite heap_log, Hdecl.
      erewrite bind_run by reflexivity.
      apply bind_throw. unfold set_prop. by rewrite Hfrozen. }
  unfold bind, error_message, console_warn, emit, ret. simpl. by rewrite log_log.
Qed.

Lemma descriptor_falsy_false h pkg :
  descriptor_falsy h pkg = false ->
  truthy pkg = true /\ truthy (prop h pkg "path") = true
  /\ truthy (prop h pkg "methods") = true /\ truthy (prop h pkg "handlers") = true.
Proof.
  unfold descriptor_falsy. intros Hd.
  repeat (apply orb_false_elim in Hd as [Hd ?]).
  repeat split; by apply negb_false_iff.
Qed.

(** A valid descriptor with a string path: the body of the [try] block
    rewrites the path and calls [register]. *)
Lemma load_body_valid prefix ap router file w l declared :
  import_default env file = Return (VObj l) ->
  descriptor_falsy (heap w) (VObj l) = false ->
  prop (heap w) (VObj l) "path" = VStr declared ->
  frozen env l = false ->
  let p := route_path env prefix ap file declared in
  let w1 := log (with_heap w (assign (heap w) l "path" (VStr p))) [EvImport file] in
  load_body env prefix ap router file w
  = (args <- spread (prop (heap w) (VObj l) "handlers") ;;
     register env router p (prop (heap w) (VObj l) "methods") args) w1.
Proof.
  intros Himp Hok Hdecl Hwritable p w1. unfold load_body.
  erewrite bind_run by (unfold import_, bind, emit, lift_result; by rewrite Himp).
  erewrite bind_run by apply invalid_spec.
  rewrite heap_log, Hok.
  rewrite rewrite_path_spec with (declared := declared) by by rewrite ?heap_log.
  fold p. rewrite heap_log.
  erewrite bind_run by by apply get_prop_defined.
  erewrite bind_run by by apply get_prop_defined.
  simpl heap. rewrite !prop_assign_other_key by done. reflexivity.
Qed.

Lemma register_accepts router p methods args w :
  router_check env p methods args = None ->
  register env router p methods args w
  = (Return (router ++ [{| layer_path := p; layer_methods := methods;
                           layer_middleware := args |}])%list,
     log w [EvRegister p methods args]).
Proof. intros Hc. unfold register, bind, emit. by rewrite Hc. Qed.

Lemma register_throws router p methods args w message :
  router_check env p methods args = Some message ->
  register env router p methods args w
  = (Throw (ThrowError message), log w [EvRegister p methods args]).
Proof. intros Hc. unfold register, bind, emit. by rewrite Hc. Qed.

Lemma spread_world v w r w' : spread v w = (r, w') -> w' = w.
Proof. destruct v; simpl; unfold ret, type_error, throw; congruence. Qed.

Lemma spread_any_world v w w' args :
  spread v w = (Return args, w) -> spread v w' = (Return args, w').
Proof. destruct v; simpl; unfold ret, type_error, throw; congruence. Qed.

(** Every iteration ends in one of these outcomes. *)
Lemma load_file_step prefix ap router file w :
  step_result env prefix ap router file w (load_file env prefix ap router file w).
Proof.
  destruct (import_default env file) as [pkg|[message|v]] eqn:Himp.
  - destruct (descriptor_falsy (heap w) pkg) eqn:Hbad.
    + erewrite load_file_invalid by done. constructor.
    + destruct (descriptor_falsy_false _ _ Hbad) as (_ & Hp & Hm & Hh).
      destruct (truthy_prop_object _ _ _ Hp) as [l ->].
      destruct (is_string (prop (heap w) (VObj l) "path")) eqn:Hstr.
      2:{ erewrite load_file_not_string by done. constructor. }
      destruct (prop (heap w) (VObj l) "path") as [| | | |declared| | | |] eqn:Hdecl;
        try discriminate.
      destruct (frozen env l) eqn:Hfrozen.
      { erewrite load_file_frozen by done. constructor. }
      unfold load_file.
      pose proof (load_body_valid prefix ap router file w l declared Himp Hbad Hdecl
                    Hfrozen) as Hbody. cbv zeta in Hbody.
      set (p := route_path env prefix ap file declared) in *.
      set (w1 := log (with_heap w (assign (heap w) l "path" (VStr p))) [EvImport file]) in *.
      destruct (spread_pure (prop (heap w) (VObj l) "handlers") w1) as [[args Hs]|Hs].
      * destruct (router_check env p (prop (heap w) (VObj l) "methods") args)
          as [message|] eqn:Hc.
        -- erewrite try_catch_throw.
           2:{ rewrite Hbody. erewrite bind_run by exact Hs.
               by apply register_throws. }
           unfold bind, error_message, console_warn, emit, ret. simpl.
           unfold w1. rewrite !log_log. simpl.
           apply (step_refused env prefix ap router file w l declared args); done.
        -- erewrite try_catch_run.
           2:{ rewrite Hbody. erewrite bind_run by exact Hs.
               by apply register_accepts. }
           unfold w1. rewrite log_log. simpl.
           apply (step_registered env prefix ap router file w l declared args); try done.
           ++ simpl in Hp. by apply negb_true_iff.
           ++ by apply (spread_any_world _ w1).
      * erewrite try_catch_throw.
        2:{ rewrite Hbody. by apply bind_throw. }
        unfold bind, error_message, console_warn, emit, ret. simpl.
        unfold w1. rewrite !log_log. simpl.
        apply (step_not_iterable env prefix ap router file w l declared); done.
  - erewrite load_file_import_error by done. constructor.
  - destruct (nullish v) eqn:Hv.
    + erewrite load_file_import_nullish by done. by econstructor.
    + erewrite load_file_import_thrown by done. constructor.
Qed.

End Steps.

(** ** The pattern filter never throws and touches only [lastIndex] *)

Lemma re_test_returns R S w :
  exists b w', re_test R S w = (Return b, w')
               /\ heap w' = heap w /\ trace w' = trace w.
Proof.
  unfold re_test, bind, set_lastIndex, ret.
  repeat case_match; eauto.
Qed.

Lemma someM_re_test_returns patterns file w :
  exists b w', someM (fun pattern => re_test pattern file) patterns w = (Return b, w')
               /\ heap w' = heap w /\ trace w' = trace w.
Proof.
  revert w. induction patterns as [|R patterns IH]; intros w; simpl.
  - by exists false, w.
  - destruct (re_test_returns R file w) as (b & w1 & Hb & Hh & Ht).
    erewrite bind_run by exact Hb. destruct b.
    + by exists true, w1.
    + destruct (IH w1) as (b & w2 & Hb2 & Hh2 & Ht2).
      exists b, w2. split; [done|]. split; congruence.
Qed.

Lemma not_ignored_returns patterns file w :
  exists b w', not_ignored patterns file w = (Return b, w')
               /\ heap w' = heap w /\ trace w' = trace w.
Proof.
  unfold not_ignored.
  destruct (someM_re_test_returns patterns file w) as (b & w1 & Hb & Hh & Ht).
  erewrite bind_run by exact Hb. by exists (negb b), w1.
Qed.

Lemma filterM_not_ignored_returns patterns files w :
  exists kept w', filterM (not_ignored patterns) files w = (Return kept, w')
                  /\ heap w' = heap w /\ trace w' = trace w.
Proof.
  revert w. induction files as [|file files IH]; intros w; simpl.
  - by exists [], w.
  - destruct (not_ignored_returns patterns file w) as (b & w1 & Hb & Hh & Ht).
    erewrite bind_run by exact Hb.
    destruct (IH w1) as (kept & w2 & Hk & Hh2 & Ht2).
    erewrite bind_run by exact Hk.
    eexists _, w2. split; [reflexivity|]. split; congruence.
Qed.

(** ** Collaborator calls are only ever appended to the trace *)

Lemma emits_weaken {A} (P Q : event -> Prop) (c : M A) :
  (forall e, P e -> Q e) -> emits P c -> emits Q c.
Proof.
  intros HPQ Hc w r w' Hrun. destruct (Hc _ _ _ Hrun) as (es & Hes & Hall).
  exists es. split; [done|]. by eapply Forall_impl.
Qed.

Lemma emits_ret {A} P (a : A) : emits P (ret a).
Proof. intros w r w' [= <- <-]. exists []. by rewrite app_nil_r. Qed.

Lemma emits_throw {A} P e : emits P (@throw A e).
Proof. intros w r w' [= <- <-]. exists []. by rewrite app_nil_r. Qed.

Lemma emits_emit (P : event -> Prop) e : P e -> emits P (emit e).
Proof. intros He w r w' [= <- <-]. exists [e]. split; [done|]. by constructor. Qed.

Lemma emits_lift {A} P (x : result A) : emits P (lift_result x).
Proof. intros w r w' [= <- <-]. exists []. by rewrite app_nil_r. Qed.

Lemma emits_bind {A B} P (c : M A) (k : A -> M B) :
  emits P c -> (forall a, emits P (k a)) -> emits P (bind c k).
Proof.
  intros Hc Hk w r w'. unfold bind.
  destruct (c w) as [[a|e] w1] eqn:Hcw.
  - intros Hkw. destruct (Hc _ _ _ Hcw) as (es1 & H1 & Hall1).
    destruct (Hk a _ _ _ Hkw) as (es2 & H2 & Hall2).
    exists (es1 ++ es2)%list. split; [by rewrite H2, H1, app_assoc|].
    by apply Forall_app.
  - intros [= <- <-]. eauto.
Qed.

Lemma emits_try_catch {A} P (c : M A) handler :
  emits P c -> (forall e, emits P (handler e)) -> emits P (try_catch c handler).
Proof.
  intros Hc Hh w r w'. unfold try_catch.
  destruct (c w) as [[a|e] w1] eqn:Hcw.
  - intros [= <- <-]. eauto.
  - intros Hhw. destruct (Hc _ _ _ Hcw) as (es1 & H1 & Hall1).
    destruct (Hh e _ _ _ Hhw) as (es2 & H2 & Hall2).
    exists (es1 ++ es2)%list. split; [by rewrite H2, H1, app_assoc|].
    by apply Forall_app.
Qed.

Lemma emits_re_test P R S : emits P (re_test R S).
Proof.
  intros w r w' Hrun. destruct (re_test_returns R S w) as (b & w1 & Hb & _ & Ht).
  rewrite Hb in Hrun. injection Hrun as <- <-. exists [].
  by rewrite Ht, app_nil_r.
Qed.

Lemma emits_someM {A} P (f : A -> M bool) l :
  (forall a, emits P (f a)) -> emits P (someM f l).
Proof.
  intros Hf. induction l as [|a l IH]; simpl.
  - apply emits_ret.
  - apply emits_bind; [done|]. intros []; [apply emits_ret | done].
Qed.

Lemma emits_filterM {A} P (f : A -> M bool) l :
  (forall a, emits P (f a)) -> emits P (filterM f l).
Proof.
  intros Hf. induction l as [|a l IH]; simpl.
  - apply emits_ret.
  - apply emits_bind; [done|]. intros b.
    apply emits_bind; [done|]. intros rest. apply emits_ret.
Qed.

Lemma emits_foldM {A B} (P : B -> event -> Prop) (f : A -> B -> M A) l :
  (forall a b, emits (P b) (f a b)) ->
  forall a, emits (fun e => exists b, In b l /\ P b e) (foldM f l a).
Proof.
  intros Hf. induction l as [|b l IH]; intros a; simpl.
  - apply emits_ret.
  - apply emits_bind.
    + eapply emits_weaken; [|apply Hf]. intros e He. exists b. split; [by left|done].
    + intros a'. eapply emits_weaken; [|apply IH].
      intros e (b' & Hin & He). exists b'. split; [by right|done].
Qed.

Lemma emits_not_ignored P patterns file : emits P (not_ignored patterns file).
Proof.
  apply emits_bind.
  - apply emits_someM. intros R. apply emits_re_test.
  - intros hit. apply emits_ret.
Qed.

Section Runs.
Context `{PathOps} (env : Env).

Lemma emits_load_file prefix ap router file :
  emits (loop_event [file]) (load_file env prefix ap router file).
Proof.
  intros w r w' Hrun.
  pose proof (load_file_step env prefix ap router file w) as Hstep.
  rewrite Hrun in Hstep.
  inversion Hstep; subst; simpl;
    (eexists; split; [done|]; repeat constructor; by left).
Qed.

Lemma emits_loop prefix ap files router :
  emits (loop_event files) (foldM (load_file env prefix ap) files router).
Proof.
  eapply emits_weaken; [|apply (emits_foldM (fun file => loop_event [file]))].
  - intros e (file & Hin & He). destruct e; simpl in *; try done.
    by destruct He as [<-|[]].
  - intros a b. apply emits_load_file.
Qed.

Lemma emits_after_access prefix exts patterns ap :
  emits (fun e => e <> EvAccess ap) (after_access env prefix exts patterns ap).
Proof.
  apply emits_bind.
  - apply emits_bind; [by apply emits_emit|]. intros _. apply emits_lift.
  - intros files. apply emits_bind.
    + apply emits_filterM. intros file. apply emits_not_ignored.
    + intros filtered. eapply emits_weaken; [|apply emits_loop].
      by intros [].
Qed.

Lemma loadRouters_accessible routers_dir options w :
  fs_access env (resolve_dir env routers_dir) = true ->
  loadRouters env routers_dir options w
  = after_access env (default "" (opt_prefix options))
      (default [".js"; ".ts"] (opt_fileExtensions options))
      (default [] (opt_ignorePatterns options))
      (resolve_dir env routers_dir)
      (log w [EvAccess (resolve_dir env routers_dir)]).
Proof.
  intros Hacc. unfold loadRouters, after_access.
  erewrite bind_run; [reflexivity|].
  apply try_catch_run. unfold access, bind, emit. by rewrite Hacc.
Qed.

Lemma loadRouters_inaccessible routers_dir options w :
  fs_access env (resolve_dir env routers_dir) = false ->
  loadRouters env routers_dir options w
  = (Throw (directory_error (resolve_dir env routers_dir)),
     log w [EvAccess (resolve_dir env routers_dir)]).
Proof.
  intros Hacc. unfold loadRouters.
  apply bind_throw. erewrite try_catch_throw; [reflexivity|].
  unfold access, bind, emit. by rewrite Hacc.
Qed.

End Runs.

(** ** Invalid descriptors (C1) *)

(** C1, as stated, fails: the loader tests the three fields for
    truthiness, and an empty array is truthy.  The module
    [/app/empty-methods/all.js] exports a descriptor whose [methods] list
    is empty; it is neither skipped nor warned about, it is registered. *)
Lemma empty_methods_list_is_registered :
  prop (heap Demo.start) (VObj 10) "methods" = VArr []
  /\ loadRouters Demo.host "/app/empty-methods" no_options Demo.start
     = (Return [{| layer_path := "/all"; layer_methods := VArr [];
                   layer_middleware := [Demo.handler] |}],
        log (with_heap Demo.start
               (assign (heap Demo.start) 10 "path" (VStr "/all")))
          [EvAccess "/app/empty-methods"; EvReaddir "/app/empty-methods";
           EvImport "/app/empty-methods/all.js";
           EvRegister "/all" (VArr []) [Demo.handler]]).
Proof. split; vm_compute; reflexivity. Qed.

(** C1 (amended): a file whose default export is absent or falsy, or whose
    [path], [methods] or [handlers] field is missing or falsy
    ([undefined], [null], [false], [0], the empty string), is skipped:
    the iteration returns the router unchanged, leaves the store
    untouched, logs one warning naming the file, and the loop goes on
    with the remaining files. *)
Theorem invalid_descriptor_skipped `{PathOps} (env : Env) prefix ap router file rest pkg w :
  import_default env file = Return pkg ->
  descriptor_falsy (heap w) pkg = true ->
  load_file env prefix ap router file w
  = (Return router, log w [EvImport file; EvWarn (invalid_warning file)])
  /\ foldM (load_file env prefix ap) (file :: rest) router w
     = foldM (load_file env prefix ap) rest router
         (log w [EvImport file; EvWarn (invalid_warning file)]).
Proof.
  intros Himp Hbad.
  pose proof (load_file_invalid env prefix ap router file w pkg Himp Hbad) as Hstep.
  split; [done|]. simpl. by erewrite bind_run by exact Hstep.
Qed.

Lemma invalid_descriptor_skipped_witness :
  import_default Demo.host "/app/skip/no-methods.js" = Return (VObj 8)
  /\ descriptor_falsy (heap Demo.start) (VObj 8) = true
  /\ foldM (load_file Demo.host "" "/app/skip")
       ["/app/skip/no-methods.js"; "/app/skip/ok.js"] new_Router Demo.start
     = foldM (load_file Demo.host "" "/app/skip") ["/app/skip/ok.js"] new_Router
         (log Demo.start [EvImport "/app/skip/no-methods.js";
                             EvWarn (invalid_warning "/app/skip/no-methods.js")]).
Proof.
  split; [reflexivity|]. split; [vm_compute; reflexivity|].
  apply (invalid_descriptor_skipped Demo.host "" "/app/skip" new_Router
           "/app/skip/no-methods.js" ["/app/skip/ok.js"] (VObj 8) Demo.start).
  - reflexivity.
  - vm_compute. reflexivity.
Defined.

(** ** A missing root directory (C3) *)

(** C3, as stated, fails: [fs.access] is called without a mode, so it
    only tests that the path exists, and [fs.readdir] stands outside the
    [try] block.  A directory that exists but that the process may not
    read passes the check and is listed: the load rejects with the error
    of the listing, not with the directory error of the loader. *)
Lemma unreadable_directory_is_listed :
  ~ accessible Edge.locked "/app/private"
  /\ fs_access Edge.locked "/app/private" = true
  /\ fs_readdir Edge.locked "/app/private" = Throw Edge.permission_denied
  /\ loadRouters Edge.locked "/app/private" no_options Demo.start
     = (Throw Edge.permission_denied,
        log Demo.start [EvAccess "/app/private"; EvReaddir "/app/private"])
  /\ Edge.permission_denied <> directory_error "/app/private".
Proof.
  split; [by intros [_ [entries Hdir]]|].
  repeat split; try (vm_compute; reflexivity). discriminate.
Qed.

(** C3 (amended): when the resolved root does not exist ([fs.access]
    rejects) the load rejects with the error that carries the resolved
    absolute path, and the only collaborator call made is the access
    check: nothing is listed, imported, registered or written.  When the
    root exists but cannot be listed (it is not readable, or not a
    directory) the load rejects as well, with the error of the listing,
    after the access check and the listing and nothing else.  In every
    run the access check is the first call made. *)
Theorem inaccessible_directory_rejects `{PathOps} (env : Env) routers_dir options w :
  (fs_access env (resolve_dir env routers_dir) = false ->
   loadRouters env routers_dir options w
   = (Throw (ThrowError ("路由目录不存在或无法访问: " ++ resolve_dir env routers_dir)),
      log w [EvAccess (resolve_dir env routers_dir)]))
  /\ (forall e,
        fs_access env (resolve_dir env routers_dir) = true ->
        fs_readdir env (resolve_dir env routers_dir) = Throw e ->
        loadRouters env routers_dir options w
        = (Throw e, log w [EvAccess (resolve_dir env routers_dir);
                           EvReaddir (resolve_dir env routers_dir)]))
  /\ (forall r w', loadRouters env routers_dir options w = (r, w') ->
      exists es, trace w' = (trace w ++ EvAccess (resolve_dir env routers_dir) :: es)%list).
Proof.
  split; [|split].
  - intros Hacc. by apply loadRouters_inaccessible.
  - intros e Hacc Hdir. rewrite loadRouters_accessible by done.
    unfold after_access. erewrite bind_throw; [reflexivity|].
    unfold readdir. erewrite bind_run by reflexivity.
    unfold lift_result. rewrite Hdir. by rewrite log_log.
  - intros r w' Hrun.
    destruct (fs_access env (resolve_dir env routers_dir)) eqn:Hacc.
    + rewrite loadRouters_accessible in Hrun by done.
      apply emits_after_access in Hrun as (es & Hes & _). exists es.
      rewrite Hes. simpl. by rewrite <- app_assoc.
    + rewrite loadRouters_inaccessible in Hrun by done.
      injection Hrun as <- <-. by exists [].
Qed.

Lemma inaccessible_directory_rejects_witness :
  (fs_access Demo.host (resolve_dir Demo.host "/non/existent/directory") = false
   /\ loadRouters Demo.host "/non/existent/directory" no_options Demo.start
      = (Throw (ThrowError "路由目录不存在或无法访问: /non/existent/directory"),
         log Demo.start [EvAccess "/non/existent/directory"]))
  /\ (fs_access Edge.locked (resolve_dir Edge.locked "private") = true
      /\ loadRouters Edge.locked "private" no_options Demo.start
         = (Throw Edge.permission_denied,
            log Demo.start [EvAccess "/app/private"; EvReaddir "/app/private"])).
Proof.
  split; (split; [vm_compute; reflexivity|]).
  - refine (proj1 (inaccessible_directory_rejects Demo.host "/non/existent/directory"
                     no_options Demo.start) _).
    vm_compute. reflexivity.
  - refine (proj1 (proj2 (inaccessible_directory_rejects Edge.locked "private"
                            no_options Demo.start))
              Edge.permission_denied _ _);
      vm_compute; reflexivity.
Defined.

(** ** What a registration leaves behind (C10, and the equation of C2) *)

Section Registration.
Context `{PathOps} (env : Env).

(** An iteration that changes the router is a registration. *)
Lemma load_file_registered_inv prefix ap router file w router' w' :
  load_file env prefix ap router file w = (Return router', w') ->
  router' <> router ->
  exists l declared args,
    import_default env file = Return (VObj l)
    /\ prop (heap w) (VObj l) "path" = VStr declared
    /\ JSString.is_empty declared = false
    /\ spread (prop (heap w) (VObj l) "handlers") w = (Return args, w)
    /\ router_check env (route_path env prefix ap file declared)
         (prop (heap w) (VObj l) "methods") args = None
    /\ router' = (router ++ [{| layer_path := route_path env prefix ap file declared;
                                layer_methods := prop (heap w) (VObj l) "methods";
                                layer_middleware := args |}])%list
    /\ w' = log (with_heap w (assign (heap w) l "path"
                                (VStr (route_path env prefix ap file declared))))
              [EvImport file;
               EvRegister (route_path env prefix ap file declared)
                 (prop (heap w) (VObj l) "methods") args].
Proof.
  intros Hrun Hne.
  pose proof (load_file_step env prefix ap router file w) as Hstep.
  rewrite Hrun in Hstep. inversion Hstep; subst; try done.
  exists l, declared, args. repeat split; done.
Qed.

Lemma assign_lookup_other (h : store) l l' key x :
  l' <> l -> assign h l key x !! l' = h !! l'.
Proof. intros Hne. unfold assign. by rewrite lookup_insert_ne. Qed.

End Registration.

(** C10, as stated, fails in its last clause: when the computed route
    path coincides with the declared one the overwrite is invisible.  In
    the directory of the test suite, loaded without a prefix,
    [user.login.js] declares [/login], is registered under [/login], and
    its exported object still holds [/login] afterwards. *)
Lemma unchanged_path_after_registration :
  prop (heap Demo.start) (VObj 1) "path" = VStr "/login"
  /\ (let '(r, w') := loadRouters Demo.host "/app/test_routers" no_options Demo.start in
      head (Demo.paths r) = Some "/login"
      /\ prop (heap w') (VObj 1) "path" = VStr "/login").
Proof. vm_compute. repeat split. Qed.

(** C10 (amended): an iteration that registers a file stores the computed
    route path in the [path] property of the very object the module
    exports: the new layer carries that path, the object holds it
    afterwards, its other properties and all other objects are as
    before; the object still shows the declared path exactly when the
    computed path equals it. *)
Theorem registration_overwrites_exported_path `{PathOps} (env : Env)
    prefix ap router file w router' w' :
  load_file env prefix ap router file w = (Return router', w') ->
  router' <> router ->
  exists l declared layer,
    import_default env file = Return (VObj l)
    /\ prop (heap w) (VObj l) "path" = VStr declared
    /\ router' = (router ++ [layer])%list
    /\ layer_path layer = route_path env prefix ap file declared
    /\ prop (heap w') (VObj l) "path" = VStr (layer_path layer)
    /\ (forall key, key <> "path" ->
        prop (heap w') (VObj l) key = prop (heap w) (VObj l) key)
    /\ (forall l', l' <> l -> heap w' !! l' = heap w !! l')
    /\ (prop (heap w') (VObj l) "path" = VStr declared
        <-> route_path env prefix ap file declared = declared).
Proof.
  intros Hrun Hne.
  destruct (load_file_registered_inv env _ _ _ _ _ _ _ Hrun Hne)
    as (l & declared & args & Himp & Hdecl & _ & _ & _ & -> & ->).
  eexists l, declared, _. split; [done|]. split; [done|]. split; [reflexivity|].
  rewrite !heap_log_with_heap. cbn [layer_path].
  split; [done|]. split; [apply prop_assign_eq|].
  split; [|split].
  - intros key Hkey. by apply prop_assign_other_key.
  - intros l' Hl'. by apply assign_lookup_other.
  - rewrite prop_assign_eq. split; congruence.
Qed.

Lemma registration_overwrites_exported_path_witness :
  let run := load_file Demo.host "/api" "/app/routes" new_Router
               "/app/routes/v1/resource.js" Demo.start in
  fst run = Return [{| layer_path := "/api/v1/resource";
                       layer_methods := VArr [VStr "post"; VStr "delete"];
                       layer_middleware := [VFun "auth"; Demo.handler] |}]
  /\ prop (heap Demo.start) (VObj 7) "path" = VStr "resource"
  /\ prop (heap (snd run)) (VObj 7) "path" = VStr "/api/v1/resource".
Proof.
  intros run.
  assert (Hrun : run = (Return [{| layer_path := "/api/v1/resource";
                                   layer_methods := VArr [VStr "post"; VStr "delete"];
                                   layer_middleware := [VFun "auth"; Demo.handler] |}],
                        snd run)).
  { vm_compute. reflexivity. }
  split; [by rewrite Hrun|]. split; [vm_compute; reflexivity|].
  destruct (registration_overwrites_exported_path Demo.host _ _ _ _ _ _ _ Hrun)
    as (l & declared & layer & Himp & Hdecl & Hrouter & Hpath & Hnew & _).
  { discriminate. }
  assert (l = 7%positive) as -> by (vm_compute in Himp; congruence).
  injection Hrouter as <-. exact Hnew.
Defined.

(** ** Strings and the store: small facts *)


Lemma is_empty_false s : s <> "" -> JSString.is_empty s = false.
Proof. by destruct s. Qed.

Lemma prop_assign_frame h l l0 key x :
  key <> "path" ->
  prop (assign h l "path" x) (VObj l0) key = prop h (VObj l0) key.
Proof.
  intros Hkey. destruct (decide (l = l0)) as [->|Hne].
  - by apply prop_assign_other_key.
  - by apply prop_assign_other_object.
Qed.

(** ** [path.extname] on a file name (C9) *)

Section Extname.
Import JSString Posix.

Local Open Scope Z_scope.

Lemma ext_loop_plain_ended l rest i e m :
  Forall plain l -> e <> -1 ->
  ext_loop (l ++ rest) i
    {| startDot := -1; startPart := 0; end_ := e; matchedSlash := m; preDotState := 0 |}
  = ext_loop rest (i - Z.of_nat (List.length l))
      {| startDot := -1; startPart := 0; end_ := e; matchedSlash := m; preDotState := 0 |}.
Proof.
  intros Hl He. revert i. induction l as [|c l IH]; intros i.
  - simpl. f_equal. lia.
  - apply Forall_cons in Hl as [[Hdot Hslash] Hl].
    simpl app. cbn [ext_loop].
    apply Ascii.eqb_neq in Hdot, Hslash. rewrite Hslash, Hdot. cbn.
    apply Z.eqb_neq in He. rewrite He. cbn.
    rewrite IH by done. f_equal. lia.
Qed.

Lemma ext_loop_plain_first c l rest i :
  plain c -> Forall plain l -> 0 <= i ->
  ext_loop (c :: l ++ rest) i ext_init
  = ext_loop rest (i - 1 - Z.of_nat (List.length l))
      {| startDot := -1; startPart := 0; end_ := i + 1; matchedSlash := false;
         preDotState := 0 |}.
Proof.
  intros [Hdot Hslash] Hl Hi. cbn [ext_loop].
  apply Ascii.eqb_neq in Hdot, Hslash. rewrite Hslash, Hdot. cbn.
  apply ext_loop_plain_ended; [done|lia].
Qed.

Lemma ext_loop_before_dot l i sd sp e m p :
  Forall (fun c => c <> slash) l -> sd <> -1 -> e <> -1 ->
  ext_loop l i
    {| startDot := sd; startPart := sp; end_ := e; matchedSlash := m; preDotState := p |}
  = {| startDot := sd; startPart := sp; end_ := e; matchedSlash := m;
       preDotState := match last l with
                      | None => p
                      | Some c => if Ascii.eqb c dot then 1 else -1
                      end |}.
Proof.
  intros Hl Hsd He. revert i p. induction l as [|c l IH]; intros i p; [done|].
  apply Forall_cons in Hl as [Hslash Hl].
  cbn [ext_loop]. apply Ascii.eqb_neq in Hslash. rewrite Hslash. cbn.
  apply Z.eqb_neq in Hsd, He. rewrite He. cbn. rewrite Hsd. cbn.
  assert (Hlast : forall q : Z,
            match last l with
            | Some c' => if Ascii.eqb c' dot then 1 else -1
            | None => if Ascii.eqb c dot then 1 else -1
            end
            = match last (c :: l) with
              | Some c' => if Ascii.eqb c' dot then 1 else -1
              | None => q
              end).
  { intros q. destruct l as [|c' l]; [done|]. rewrite last_cons_cons.
    destruct (last (c' :: l)) eqn:E; [done|]. by apply last_None in E. }
  destruct (Ascii.eqb c dot) eqn:Hc.
  - destruct (p =? 1) eqn:Hp; cbn.
    + apply Z.eqb_eq in Hp as ->. rewrite IH by done. f_equal. apply (Hlast 1).
    + rewrite IH by done. f_equal. apply (Hlast p).
  - rewrite IH by done. f_equal. apply (Hlast p).
Qed.

Lemma length_of_chars cs : String.length (of_chars cs) = List.length cs.
Proof. induction cs as [|c cs IH]; simpl; [done|]. by rewrite IH. Qed.

Lemma chars_of_chars cs : chars (of_chars cs) = cs.
Proof. apply list_ascii_of_string_of_list_ascii. Qed.

Lemma of_chars_chars s : of_chars (chars s) = s.
Proof. apply string_of_list_ascii_of_string. Qed.

Lemma last_rev_head (l : list ascii) : last (rev l) = head l.
Proof. destruct l as [|c l]; [done|]. simpl. apply last_snoc. Qed.

(** The scan of a name without dots finds no extension. *)
Lemma extname_chars_no_dot cs :
  Forall plain cs -> extname (of_chars cs) = ""%string.
Proof.
  intros Hcs. unfold extname. rewrite chars_of_chars, length_of_chars.
  destruct (rev cs) as [|c l] eqn:Hrev; [done|].
  assert (Hall : Forall plain (c :: l)).
  { rewrite <- Hrev. by apply List.Forall_rev. }
  apply Forall_cons in Hall as [Hc Hl].
  rewrite <- (app_nil_r l).
  rewrite ext_loop_plain_first; [done|done|done|].
  apply (f_equal (@List.length ascii)) in Hrev. rewrite length_rev in Hrev.
  simpl in Hrev. lia.
Qed.

Lemma ext_loop_dot rest i e m :
  e <> -1 ->
  ext_loop (dot :: rest) i
    {| startDot := -1; startPart := 0; end_ := e; matchedSlash := m; preDotState := 0 |}
  = ext_loop rest (i - 1)
      {| startDot := i; startPart := 0; end_ := e; matchedSlash := m; preDotState := 0 |}.
Proof.
  intros He. cbn [ext_loop end_ startDot].
  replace (Ascii.eqb dot slash) with false by reflexivity.
  replace (Ascii.eqb dot dot) with true by reflexivity.
  apply Z.eqb_neq in He. rewrite He. reflexivity.
Qed.

(** The scan of a name whose last dot sits between [pre] and [suf]. *)
Lemma ext_loop_last_dot pre suf :
  Forall (fun c => c <> slash) pre -> Forall plain suf ->
  ext_loop (rev (pre ++ dot :: suf))
    (Z.of_nat (List.length (pre ++ dot :: suf)) - 1) ext_init
  = {| startDot := Z.of_nat (List.length pre); startPart := 0;
       end_ := Z.of_nat (List.length (pre ++ dot :: suf));
       matchedSlash := false;
       preDotState := match head pre with
                      | None => 0
                      | Some c => if Ascii.eqb c dot then 1 else -1
                      end |}.
Proof.
  intros Hpre Hsuf.
  assert (Hrpre : Forall (fun c => c <> slash) (rev pre)).
  { by apply List.Forall_rev. }
  rewrite rev_app_distr. cbn [rev]. rewrite <- app_assoc. cbn [app].
  rewrite length_app. cbn [List.length].
  destruct (rev suf) as [|c l] eqn:Hrev.
  - assert (suf = []) as ->.
    { apply (f_equal (@List.length ascii)) in Hrev. rewrite length_rev in Hrev.
      by destruct suf. }
    cbn [app ext_loop ext_init end_ startDot List.length].
    replace (Ascii.eqb dot slash) with false by reflexivity.
    replace (Ascii.eqb dot dot) with true by reflexivity. cbn.
    rewrite ext_loop_before_dot by (done || lia).
    rewrite last_rev_head. f_equal; lia.
  - assert (Hall : Forall plain (c :: l)).
    { rewrite <- Hrev. by apply List.Forall_rev. }
    apply Forall_cons in Hall as [Hc Hl].
    assert (Hlen : List.length suf = S (List.length l)).
    { apply (f_equal (@List.length ascii)) in Hrev. by rewrite length_rev in Hrev. }
    cbn [app]. rewrite ext_loop_plain_first by (done || lia).
    rewrite ext_loop_dot by lia.
    rewrite ext_loop_before_dot by (done || lia).
    rewrite last_rev_head. f_equal; lia.
Qed.

Lemma extname_chars_last_dot pre suf :
  Forall (fun c => c <> slash) pre -> Forall plain suf ->
  extname (of_chars (pre ++ dot :: suf))
  = match pre, suf with
    | [], _ => ""
    | [c], [] => if Ascii.eqb c dot then "" else of_chars [dot]
    | _, _ => of_chars (dot :: suf)
    end%string.
Proof.
  intros Hpre Hsuf. unfold extname.
  rewrite length_of_chars, chars_of_chars, ext_loop_last_dot by done.
  cbn [startDot end_ startPart preDotState].
  assert (Hslice : slice (of_chars (pre ++ dot :: suf)) (Z.of_nat (List.length pre))
                     (Z.of_nat (List.length (pre ++ dot :: suf)))
                   = of_chars (dot :: suf)).
  { unfold slice. rewrite chars_of_chars, Nat2Z.id, drop_app_length.
    rewrite take_ge; [done|]. rewrite length_app. lia. }
  rewrite Hslice.
  destruct (Z.of_nat (List.length pre) =? -1) eqn:E1; [apply Z.eqb_eq in E1; lia|].
  destruct (Z.of_nat (List.length (pre ++ dot :: suf)) =? -1) eqn:E2;
    [apply Z.eqb_eq in E2; lia|].
  cbn [orb].
  destruct pre as [|c [|c2 pre]]; [done| |].
  - cbn [head]. destruct suf as [|s suf].
    + by destruct (Ascii.eqb c dot).
    + destruct (Ascii.eqb c dot); [|done].
      destruct (Z.of_nat (List.length [c]) =?
                Z.of_nat (List.length ([c] ++ dot :: s :: suf)) - 1) eqn:E3.
      * apply Z.eqb_eq in E3. rewrite length_app in E3. simpl in E3. lia.
      * by rewrite andb_false_r.
  - cbn [head]. destruct (Ascii.eqb c dot); [|done].
    replace (Z.of_nat (List.length (c :: c2 :: pre)) =? 0 + 1) with false.
    + by rewrite andb_false_r.
    + symmetry. apply Z.eqb_neq. simpl List.length. lia.
Qed.

Lemma includes_char_absent x l :
  Forall (fun c => c <> x) l -> includes_char x (of_chars l) = false.
Proof.
  induction 1 as [|c l Hc _ IH]; [done|]. simpl.
  apply Ascii.eqb_neq in Hc. by rewrite Hc, IH.
Qed.

Lemma includes_char_present x pre suf :
  includes_char x (of_chars (pre ++ x :: suf)) = true.
Proof.
  induction pre as [|c pre IH]; simpl.
  - by rewrite Ascii.eqb_refl.
  - rewrite IH. apply orb_true_r.
Qed.

Lemma includes_char_false_Forall x s :
  includes_char x s = false -> Forall (fun c => c <> x) (chars s).
Proof.
  induction s as [|c s IH]; simpl; [constructor|].
  intros [Hc Hs]%orb_false_elim. constructor; [|by apply IH].
  by apply Ascii.eqb_neq.
Qed.

Lemma suffix_from_last_dot_no_dot cs :
  Forall plain cs -> suffix_from_last_dot (of_chars cs) = ""%string.
Proof.
  induction 1 as [|c l [Hc _] Hl IH]; [done|]. simpl.
  rewrite includes_char_absent.
  - apply Ascii.eqb_neq in Hc. by rewrite Hc.
  - eapply Forall_impl; [exact Hl|]. by intros ? [].
Qed.

Lemma suffix_from_last_dot_split pre suf :
  Forall plain suf ->
  suffix_from_last_dot (of_chars (pre ++ dot :: suf)) = of_chars (dot :: suf).
Proof.
  intros Hsuf. induction pre as [|c pre IH]; simpl.
  - rewrite includes_char_absent; [done|].
    eapply Forall_impl; [exact Hsuf|]. by intros ? [].
  - by rewrite includes_char_present.
Qed.

Lemma dot_leads_split pre suf :
  Forall plain suf ->
  dot_leads (of_chars (pre ++ dot :: suf))
  = match pre, suf with
    | [], _ => true
    | [c], [] => Ascii.eqb c dot
    | _, _ => false
    end.
Proof.
  intros Hsuf.
  assert (Hnd : Forall (fun c => c <> dot) suf).
  { eapply Forall_impl; [exact Hsuf|]. by intros ? []. }
  destruct pre as [|c [|c2 pre]]; simpl.
  - by rewrite includes_char_absent.
  - destruct suf as [|s suf]; simpl; [by rewrite andb_true_r|].
    apply andb_false_r.
  - rewrite includes_char_present, orb_true_r. simpl.
    destruct pre; simpl; destruct (Ascii.eqb c2 "."); apply andb_false_r.
Qed.

Lemma last_dot_split cs :
  Forall (fun c => c <> slash) cs ->
  Forall plain cs
  \/ exists pre suf, cs = (pre ++ dot :: suf)%list
                     /\ Forall (fun c => c <> slash) pre /\ Forall plain suf.
Proof.
  induction 1 as [|c cs Hc Hcs IH]; [by left|].
  destruct IH as [Hplain|(pre & suf & -> & Hpre & Hsuf)].
  - destruct (decide (c = dot)) as [->|Hd].
    + right. by exists [], cs.
    + left. by constructor.
  - right. exists (c :: pre), suf. repeat split; [|done]. by constructor.
Qed.

(** On a name without [/] (a directory entry), [path.extname] is the
    suffix from the last dot, except that it is empty when that dot opens
    the name and when the name is [..]. *)
Lemma extname_of_file_name name :
  includes_char slash name = false ->
  extname name = (if dot_leads name then "" else suffix_from_last_dot name)%string.
Proof.
  intros Hslash. apply includes_char_false_Forall in Hslash.
  rewrite <- (of_chars_chars name).
  destruct (last_dot_split _ Hslash) as [Hplain|(pre & suf & -> & Hpre & Hsuf)].
  - rewrite extname_chars_no_dot, suffix_from_last_dot_no_dot by done.
    by destruct (dot_leads _).
  - rewrite extname_chars_last_dot, dot_leads_split, suffix_from_last_dot_split by done.
    destruct pre as [|c [|c2 pre]]; [done| |done].
    destruct suf; [|done]. by destruct (Ascii.eqb c dot).
Qed.

End Extname.

(** ** Which files a run imports *)

Lemma filterM_subset {A} (f : A -> M bool) l w kept w' :
  filterM f l w = (Return kept, w') -> forall x, In x kept -> In x l.
Proof.
  revert w kept w'. induction l as [|a l IH]; intros w kept w'; simpl.
  - intros [= <- <-] x [].
  - unfold bind at 1. destruct (f a w) as [[b|e] w1]; [|discriminate].
    unfold bind at 1. destruct (filterM f l w1) as [[rest|e] w2] eqn:Hrest; [|discriminate].
    intros [= <- <-] x Hx. specialize (IH _ _ _ Hrest).
    destruct b; [destruct Hx as [<-|Hx]|]; auto.
Qed.

Section Imports.
Context `{PathOps} (env : Env).

Lemma eligible_discovered routers_dir options w entries file :
  fs_readdir env (resolve_dir env routers_dir) = Return entries ->
  In file (eligible env routers_dir options w) ->
  In file (discover (default [".js"; ".ts"] (opt_fileExtensions options)) entries).
Proof.
  intros Hdir. unfold eligible. rewrite Hdir.
  destruct (filterM _ _ _) as [[kept|e] w1] eqn:Hkept; [|by intros []].
  by eapply filterM_subset.
Qed.

(** After the access check and the listing, a run only imports eligible
    files, warns and registers. *)
Lemma loadRouters_calls routers_dir options w entries r w' :
  fs_access env (resolve_dir env routers_dir) = true ->
  fs_readdir env (resolve_dir env routers_dir) = Return entries ->
  loadRouters env routers_dir options w = (r, w') ->
  exists es,
    trace w' = (trace w ++ [EvAccess (resolve_dir env routers_dir);
                            EvReaddir (resolve_dir env routers_dir)] ++ es)%list
    /\ Forall (loop_event (eligible env routers_dir options w)) es.
Proof.
  intros Hacc Hdir. rewrite loadRouters_accessible by done.
  unfold after_access, eligible. rewrite Hdir.
  erewrite bind_run.
  2:{ unfold readdir. erewrite bind_run by reflexivity.
      unfold lift_result. rewrite Hdir. reflexivity. }
  rewrite log_log. simpl app.
  destruct (filterM_not_ignored_returns (default [] (opt_ignorePatterns options))
              (discover (default [".js"; ".ts"] (opt_fileExtensions options)) entries)
              (log w [EvAccess (resolve_dir env routers_dir);
                      EvReaddir (resolve_dir env routers_dir)]))
    as (kept & w1 & Hkept & Hheap & Htrace).
  rewrite Hkept. erewrite bind_run by exact Hkept.
  intros Hloop. apply emits_loop in Hloop as (es & Hes & Hall).
  exists es. split; [|done]. rewrite Hes, Htrace. simpl. by rewrite <- app_assoc.
Qed.

End Imports.

(** ** Discovery (C9) *)

(** C9, as stated, fails: [path.extname] finds no extension in a name
    whose only dot is its first character.  The regular file [.js] ends
    with the suffix [.js] from its last dot, a member of the default
    [fileExtensions], yet discovery drops it and the load imports and
    registers nothing. *)
Lemma dot_file_is_not_discovered :
  let entry := Demo.file_in "/app/hidden" ".js" in
  isFile entry = true
  /\ includes (suffix_from_last_dot (d_name entry)) [".js"; ".ts"] = true
  /\ discover [".js"; ".ts"] [entry] = []
  /\ loadRouters Demo.host "/app/hidden" no_options Demo.start
     = (Return [], log Demo.start [EvAccess "/app/hidden"; EvReaddir "/app/hidden"]).
Proof. vm_compute. repeat split. Qed.

(** C9 (amended): discovery keeps exactly the entries that are regular
    files whose extension, as [path.extname] finds it, is a member of
    [fileExtensions] (compared case-sensitively).  In a file name that
    extension is the suffix starting at the last dot, except that it is
    empty when the name has no dot, when its last dot is its first
    character, and for the name [..].  A run imports no file outside the
    discovered ones, so no other entry is registered. *)
Theorem discovery_keeps_regular_files_by_extname (env : Env) fileExtensions entries :
  Forall (fun p => JSString.includes_char JSString.slash (d_name p) = false) entries ->
  discover fileExtensions entries
  = map full_path
      (List.filter
         (fun p => isFile p && includes (file_extension (d_name p)) fileExtensions)
         entries)
  /\ (forall routers_dir options w r w',
        default [".js"; ".ts"] (opt_fileExtensions options) = fileExtensions ->
        fs_readdir env (resolve_dir env routers_dir) = Return entries ->
        loadRouters env routers_dir options w = (r, w') ->
        exists es, trace w' = (trace w ++ es)%list
                   /\ forall file, In (EvImport file) es ->
                        In file (discover fileExtensions entries)).
Proof.
  intros Hnames. split.
  - unfold discover. f_equal. apply List.filter_ext_in. intros p Hp.
    unfold wanted, file_extension. simpl extname.
    rewrite extname_of_file_name; [done|].
    rewrite List.Forall_forall in Hnames. by apply Hnames.
  - intros routers_dir options w r w' Hexts Hdir Hrun.
    destruct (fs_access env (resolve_dir env routers_dir)) eqn:Hacc.
    + destruct (loadRouters_calls env _ _ _ _ _ _ Hacc Hdir Hrun) as (es & Hes & Hall).
      eexists. split; [exact Hes|]. intros file [Hin|[Hin|Hin]]; try discriminate.
      rewrite List.Forall_forall in Hall. apply Hall in Hin. simpl in Hin.
      apply (eligible_discovered env _ _ _ _ _ Hdir) in Hin.
      by rewrite Hexts in Hin.
    + rewrite loadRouters_inaccessible in Hrun by done. injection Hrun as <- <-.
      eexists. split; [reflexivity|]. by intros file [Hin|[]].
Qed.

Lemma discovery_keeps_regular_files_by_extname_witness :
  let entries :=
    [ Demo.file_in "/app/routes" "login.js"; Demo.dir_in "/app/routes" "v1.js";
      Demo.file_in "/app/routes" "notes.md"; Demo.file_in "/app/routes" ".js";
      Demo.file_in "/app/routes" "Legacy.JS"; Demo.file_in "/app/routes" "a.test.js" ] in
  Forall (fun p => JSString.includes_char JSString.slash (d_name p) = false) entries
  /\ discover [".js"] entries = ["/app/routes/login.js"; "/app/routes/a.test.js"].
Proof.
  intros entries.
  assert (Hnames : Forall (fun p => JSString.includes_char JSString.slash (d_name p) = false)
                     entries) by repeat constructor.
  split; [exact Hnames|].
  destruct (discovery_keeps_regular_files_by_extname Demo.host [".js"] entries Hnames)
    as [Heq _].
  rewrite Heq. vm_compute. reflexivity.
Defined.

(** ** Strings: splitting, joining, replacing *)

Section Strings.
Import JSString.

Lemma replaceAll_no_backslash s :
  includes_char backslash (replaceAll_backslash s) = false.
Proof.
  induction s as [|c s IH]; [done|]. simpl. rewrite IH, orb_false_r.
  unfold backslash_to_slash. destruct (Ascii.eqb c backslash) eqn:Hc; [done|exact Hc].
Qed.

Lemma replaceAll_id s :
  includes_char backslash s = false -> replaceAll_backslash s = s.
Proof.
  induction s as [|c s IH]; [done|]. simpl.
  intros [Hc Hs]%orb_false_elim. unfold backslash_to_slash. by rewrite Hc, IH.
Qed.

Lemma replaceAll_app s t :
  replaceAll_backslash (s ++ t) = replaceAll_backslash s ++ replaceAll_backslash t.
Proof. induction s as [|c s IH]; [done|]. simpl. by rewrite IH. Qed.

Lemma replaceAll_idem s :
  replaceAll_backslash (replaceAll_backslash s) = replaceAll_backslash s.
Proof. apply replaceAll_id, replaceAll_no_backslash. Qed.

Lemma startsWith_slash_replaceAll s :
  startsWith_slash s = true -> startsWith_slash (replaceAll_backslash s) = true.
Proof.
  destruct s as [|c s]; [done|]. simpl. intros Hc.
  apply Ascii.eqb_eq in Hc as ->. reflexivity.
Qed.

Lemma leading_slash_starts p : startsWith_slash (leading_slash p) = true.
Proof. unfold leading_slash. by destruct (startsWith_slash p) eqn:Hp. Qed.

Lemma leading_slash_no_backslash p :
  includes_char backslash p = false -> includes_char backslash (leading_slash p) = false.
Proof. unfold leading_slash. by destruct (startsWith_slash p). Qed.

Lemma split_slash_nonempty s : split_slash s <> [].
Proof.
  destruct s as [|c s]; simpl; [done|].
  destruct (Ascii.eqb c slash); [done|]. by destruct (split_slash s).
Qed.

Lemma split_slash_no_slash s :
  Forall (fun seg => includes_char slash seg = false) (split_slash s).
Proof.
  induction s as [|c s IH]; simpl; [by repeat constructor|].
  destruct (Ascii.eqb c slash) eqn:Hc; [by constructor|].
  destruct (split_slash s) as [|seg segs]; [by repeat constructor; simpl; rewrite Hc|].
  apply Forall_cons in IH as [Hseg Hsegs]. constructor; [|done].
  simpl. by rewrite Hc.
Qed.

Lemma push_segment_solid allow res seg :
  includes_char slash seg = false ->
  Forall solid res -> Forall solid (Posix.push_segment allow res seg).
Proof.
  intros Hseg Hres. unfold Posix.push_segment.
  destruct (String.eqb seg "" || String.eqb seg ".") eqn:Hskip; [done|].
  apply orb_false_elim in Hskip as [Hempty _]. apply String.eqb_neq in Hempty.
  destruct (String.eqb seg "..") eqn:Hup.
  - destruct res as [|last res].
    { destruct allow; [|done]. constructor; [by split|done]. }
    apply Forall_cons in Hres as [Hlast Hres].
    destruct (String.eqb last ".."); [|done].
    destruct allow; [|by constructor].
    constructor; [by split|by constructor].
  - constructor; [by split|done].
Qed.

Lemma normalize_segments_solid allow segs :
  Forall (fun seg => includes_char slash seg = false) segs ->
  Forall solid (Posix.normalize_segments allow segs).
Proof.
  intros Hsegs. unfold Posix.normalize_segments. apply List.Forall_rev.
  assert (Hgen : forall res, Forall solid res ->
                   Forall solid (fold_left (Posix.push_segment allow) segs res)).
  { induction Hsegs as [|seg segs Hseg _ IH]; intros res Hres; [done|].
    simpl. apply IH. by apply push_segment_solid. }
  by apply Hgen.
Qed.

Lemma join_slash_solid_head segs :
  Forall solid segs -> startsWith_slash (join_slash segs) = false.
Proof.
  destruct 1 as [|seg segs [Hne Hseg] _]; [done|].
  destruct seg as [|c seg]; [done|]. simpl in Hseg.
  apply orb_false_elim in Hseg as [Hc _].
  destruct segs; simpl; exact Hc.
Qed.

Lemma normalizeString_head path allow :
  startsWith_slash (Posix.normalizeString path allow) = false.
Proof.
  apply join_slash_solid_head, normalize_segments_solid, split_slash_no_slash.
Qed.

(** [path.normalize] never answers a path that starts with two slashes. *)
Lemma normalize_no_double_slash path :
  startsWith "//" (Posix.normalize path) = false.
Proof.
  unfold Posix.normalize. destruct (is_empty path); [done|].
  pose proof (normalizeString_head path (negb (startsWith_slash path))) as Hhead.
  destruct (Posix.normalizeString path (negb (startsWith_slash path))) as [|c body].
  - simpl. by destruct (startsWith_slash path), (endsWith_slash path).
  - cbn [startsWith_slash] in Hhead. cbn [is_empty].
    rewrite Ascii.eqb_sym in Hhead.
    destruct (startsWith_slash path), (endsWith_slash path).
    + change (startsWith "//" (String "/" (String c (body ++ "/"))) = false).
      cbn [startsWith]. fold slash. by rewrite Hhead, andb_false_r.
    + change (startsWith "//" (String "/" (String c body)) = false).
      cbn [startsWith]. fold slash. by rewrite Hhead, andb_false_r.
    + change (startsWith "//" (String c (body ++ "/")) = false).
      cbn [startsWith]. fold slash. by rewrite Hhead.
    + cbn [startsWith]. fold slash. by rewrite Hhead.
Qed.

Lemma join_no_double_slash args : startsWith "//" (Posix.join args) = false.
Proof.
  unfold Posix.join. destruct (List.filter _ args); [done|].
  apply normalize_no_double_slash.
Qed.

Lemma leading_slash_single p :
  startsWith "//" p = false -> startsWith "//" (leading_slash p) = false.
Proof.
  unfold leading_slash. destruct (startsWith_slash p) eqn:Hp; [done|].
  intros _. destruct p as [|c p]; [done|].
  change (startsWith "//" (String "/" (String c p)) = false).
  cbn [startsWith]. cbn [startsWith_slash] in Hp. rewrite Ascii.eqb_sym in Hp.
  fold slash. by rewrite Hp, andb_false_r.
Qed.

Lemma split_slash_app a b :
  split_slash (a ++ String slash b) = (split_slash a ++ split_slash b)%list.
Proof.
  induction a as [|c a IH]; simpl.
  - done.
  - destruct (Ascii.eqb c slash); [by rewrite IH|].
    rewrite IH. pose proof (split_slash_nonempty a) as Hne.
    by destruct (split_slash a).
Qed.

Lemma split_join_slash segs :
  segs <> [] -> split_slash (join_slash segs) = List.concat (map split_slash segs).
Proof.
  induction segs as [|seg segs IH]; [done|]. intros _.
  destruct segs as [|seg' segs].
  - simpl. by rewrite app_nil_r.
  - change (join_slash (seg :: seg' :: segs))
      with (seg ++ String slash (join_slash (seg' :: segs))).
    rewrite split_slash_app, IH by done. reflexivity.
Qed.

Lemma join_split_slash s : join_slash (split_slash s) = s.
Proof.
  induction s as [|c s IH]; [done|]. simpl.
  pose proof (split_slash_nonempty s) as Hne.
  destruct (Ascii.eqb c slash) eqn:Hc.
  - apply Ascii.eqb_eq in Hc as ->.
    destruct (split_slash s) as [|seg segs]; [done|].
    change (join_slash ("" :: seg :: segs)) with (String slash (join_slash (seg :: segs))).
    by rewrite IH.
  - destruct (split_slash s) as [|seg segs]; [done|].
    destruct segs as [|seg' segs].
    + simpl in *. by rewrite IH.
    + change (join_slash (String c seg :: seg' :: segs))
        with (String c (join_slash (seg :: seg' :: segs))).
      by rewrite IH.
Qed.

Lemma replaceAll_join_slash segs :
  replaceAll_backslash (join_slash segs) = join_slash (map replaceAll_backslash segs).
Proof.
  induction segs as [|seg segs IH]; [done|].
  destruct segs as [|seg' segs]; [done|].
  change (join_slash (seg :: seg' :: segs))
    with (seg ++ String slash (join_slash (seg' :: segs))).
  rewrite replaceAll_app. cbn [replaceAll_backslash]. rewrite IH. reflexivity.
Qed.

(** Splitting after the replacement refines the split before it. *)
Lemma split_replaceAll s :
  split_slash (replaceAll_backslash s)
  = List.concat (map (fun seg => split_slash (replaceAll_backslash seg)) (split_slash s)).
Proof.
  rewrite <- (join_split_slash s) at 1.
  rewrite replaceAll_join_slash, split_join_slash.
  - by rewrite map_map.
  - pose proof (split_slash_nonempty s). by destruct (split_slash s).
Qed.

Lemma endsWith_slash_app a b :
  b <> "" -> endsWith_slash (a ++ b) = endsWith_slash b.
Proof.
  intros Hb. induction a as [|c a IH]; [done|].
  change (String c a ++ b) with (String c (a ++ b)).
  cbn [endsWith_slash]. destruct (a ++ b) eqn:Hab; [|done].
  destruct a; [by subst|done].
Qed.

Lemma only_slashes_ends_with_slash s :
  Forall (fun seg => seg = "") (split_slash s) -> s <> "" -> endsWith_slash s = true.
Proof.
  induction s as [|c s IH]; [done|]. intros Hall _. simpl in Hall.
  destruct (Ascii.eqb c slash) eqn:Hc.
  - apply Forall_cons in Hall as [_ Hall].
    destruct s as [|c' s]; [simpl; exact Hc|].
    cbn [endsWith_slash]. by apply IH.
  - pose proof (split_slash_nonempty s) as Hne.
    destruct (split_slash s); [done|]. by apply Forall_cons in Hall as [? _].
Qed.

Lemma fold_push_no_up allow segs res :
  Forall (fun seg => String.eqb seg ".." = false) segs ->
  fold_left (Posix.push_segment allow) segs res
  = (rev (List.filter kept_segment segs) ++ res)%list.
Proof.
  intros Hsegs. revert res. induction Hsegs as [|seg segs Hseg _ IH]; intros res; [done|].
  cbn [fold_left List.filter]. rewrite IH. unfold Posix.push_segment, kept_segment.
  destruct (String.eqb seg "" || String.eqb seg "."); cbn [negb]; [done|].
  rewrite Hseg. cbn [rev]. by rewrite <- app_assoc.
Qed.

Lemma normalize_segments_no_up allow segs :
  Forall (fun seg => String.eqb seg ".." = false) segs ->
  Posix.normalize_segments allow segs = List.filter kept_segment segs.
Proof.
  intros Hsegs. unfold Posix.normalize_segments.
  by rewrite fold_push_no_up, app_nil_r, rev_involutive.
Qed.

Lemma dot_segment_false_up seg : dot_segment seg = false -> String.eqb seg ".." = false.
Proof. unfold dot_segment. by intros [_ ?]%orb_false_elim. Qed.

(** Without dot segments after the replacement there are none before. *)
Lemma no_dot_segment_split s :
  no_dot_segment s -> Forall (fun seg => dot_segment seg = false) (split_slash s).
Proof.
  unfold no_dot_segment. rewrite split_replaceAll.
  induction (split_slash s) as [|seg segs IH]; [done|].
  cbn [map List.concat]. intros [Hseg Hsegs]%Forall_app. constructor; [|by apply IH].
  destruct (dot_segment seg) eqn:Hdot; [|done].
  unfold dot_segment in Hdot. apply orb_true_iff in Hdot as [Hd|Hd];
    apply String.eqb_eq in Hd as ->; by apply Forall_cons in Hseg as [? _].
Qed.

Lemma join_slash_cons seg segs :
  segs <> [] -> join_slash (seg :: segs) = seg ++ String slash (join_slash segs).
Proof. by destruct segs. Qed.

Lemma join_slash_snoc_nonempty segs last :
  last <> "" -> join_slash (segs ++ [last]) <> "".
Proof.
  intros Hlast. destruct segs as [|seg segs]; [done|].
  cbn [app]. rewrite join_slash_cons by by destruct segs.
  by destruct seg.
Qed.

Lemma join_slash_snoc_ends segs last :
  last <> "" ->
  endsWith_slash (join_slash (segs ++ [last])) = endsWith_slash last.
Proof.
  intros Hlast. induction segs as [|seg segs IH]; [done|].
  cbn [app]. rewrite join_slash_cons by by destruct segs.
  rewrite endsWith_slash_app by done.
  pose proof (join_slash_snoc_nonempty segs last Hlast) as Hne.
  cbn [endsWith_slash]. destruct (join_slash (segs ++ [last])); [done|]. exact IH.
Qed.

End Strings.

(** ** The registered path (C2) *)

(** C2, as stated, fails on a POSIX host: there a backslash is an
    ordinary character for [path.join], so a declared path that begins
    with a backslash and a slash comes out of the join unchanged, and the
    replacement of backslashes then yields two leading slashes. *)
Lemma backslash_path_gets_two_slashes :
  prop (heap Demo.start) (VObj 12) "path" = VStr "\/x"
  /\ Demo.paths (fst (loadRouters Demo.host "/app/slashes" no_options Demo.start))
     = ["//x"]
  /\ JSString.startsWith "//" "//x" = true.
Proof. vm_compute. repeat split. Qed.

(** C2 (amended): every registered route path is the join, in order, of
    the prefix, the directory of the file relative to the resolved root
    and the path the exported object holds when the file is loaded, with
    every backslash turned into a slash and a slash put in front exactly
    when the result has none.  It begins with a slash and contains no
    backslash; on a POSIX host it begins with exactly one slash whenever
    the joined path contains no backslash. *)
Theorem registered_path_is_normalized_join (env : Env) prefix ap router file w router' w' :
  load_file env prefix ap router file w = (Return router', w') ->
  router' <> router ->
  exists l declared layer,
    import_default env file = Return (VObj l)
    /\ prop (heap w) (VObj l) "path" = VStr declared
    /\ router' = (router ++ [layer])%list
    /\ let joined := Posix.join [prefix;
                                 Posix.relative (cwd env) ap (Posix.dirname file);
                                 declared] in
       let slashed := JSString.replaceAll_backslash joined in
       layer_path layer = (if JSString.startsWith_slash slashed then slashed
                           else "/" ++ slashed)
       /\ JSString.startsWith_slash (layer_path layer) = true
       /\ JSString.includes_char JSString.backslash (layer_path layer) = false
       /\ (JSString.includes_char JSString.backslash joined = false ->
           JSString.startsWith "//" (layer_path layer) = false).
Proof.
  intros Hrun Hne.
  destruct (load_file_registered_inv env _ _ _ _ _ _ _ Hrun Hne)
    as (l & declared & args & Himp & Hdecl & _ & _ & _ & -> & _).
  eexists l, declared, _. split; [done|]. split; [done|]. split; [reflexivity|].
  cbn [layer_path]. unfold route_path. cbn [join relative dirname posix].
  split; [reflexivity|]. split; [apply leading_slash_starts|].
  split; [apply leading_slash_no_backslash, replaceAll_no_backslash|].
  intros Hplain. rewrite replaceAll_id by done.
  apply leading_slash_single, join_no_double_slash.
Qed.

Lemma registered_path_is_normalized_join_witness :
  let run := load_file Demo.host "/api" "/app/routes" new_Router
               "/app/routes/v1/resource.js" Demo.start in
  fst run = Return [{| layer_path := "/api/v1/resource";
                       layer_methods := VArr [VStr "post"; VStr "delete"];
                       layer_middleware := [VFun "auth"; Demo.handler] |}]
  /\ Posix.join ["/api"; "v1"; "resource"] = "/api/v1/resource"
  /\ JSString.startsWith "//" "/api/v1/resource" = false.
Proof.
  intros run.
  assert (Hrun : run = (Return [{| layer_path := "/api/v1/resource";
                                   layer_methods := VArr [VStr "post"; VStr "delete"];
                                   layer_middleware := [VFun "auth"; Demo.handler] |}],
                        snd run)).
  { vm_compute. reflexivity. }
  split; [by rewrite Hrun|]. split; [vm_compute; reflexivity|].
  destruct (registered_path_is_normalized_join Demo.host _ _ _ _ _ _ _ Hrun)
    as (l & declared & layer & Himp & Hdecl & Hrouter & Hpath & _ & _ & Hsingle).
  { discriminate. }
  injection Hrouter as <-.
  assert (l = 7%positive) as -> by (vm_compute in Himp; congruence).
  assert (declared = "resource") as -> by (vm_compute in Hdecl; congruence).
  apply Hsingle. vm_compute. reflexivity.
Defined.

(** ** Paths under the prefix [/api] (C7) *)

Section ApiPrefix.
Import JSString.

Lemma filter_nil_Forall {A} (f : A -> bool) l :
  List.filter f l = [] -> Forall (fun x => f x = false) l.
Proof.
  induction l as [|x l IH]; [done|]. simpl.
  destruct (f x) eqn:Hx; [done|]. intros Hl. constructor; auto.
Qed.

(** [path.join('/api', ...parts)] when no part has a dot segment: the
    empty segments go, the others stay, and a trailing slash is kept. *)
Lemma normalize_api_join parts :
  Forall (fun part => Forall clean (split_slash part)) parts ->
  Posix.normalize (join_slash ("/api" :: parts))
  = let body := join_slash
                  ("api" :: List.filter kept_segment
                              (List.concat (map split_slash parts))) in
    if endsWith_slash (join_slash ("/api" :: parts))
    then "/" ++ body ++ "/" else "/" ++ body.
Proof.
  intros Hparts. set (joined := join_slash ("/api" :: parts)).
  assert (Hsplit : split_slash joined
                   = "" :: "api" :: List.concat (map split_slash parts)).
  { unfold joined. by rewrite split_join_slash. }
  assert (Hstart : startsWith_slash joined = true) by (unfold joined; by destruct parts).
  assert (Hne : is_empty joined = false) by (unfold joined; by destruct parts).
  unfold Posix.normalize. rewrite Hne, Hstart. cbn [negb].
  unfold Posix.normalizeString. rewrite Hsplit, normalize_segments_no_up.
  2:{ constructor; [done|]. constructor; [done|].
      apply Forall_concat, Forall_map.
      eapply Forall_impl; [exact Hparts|]. intros part Hpart.
      eapply Forall_impl; [exact Hpart|]. intros seg. apply dot_segment_false_up. }
  change (List.filter kept_segment ("" :: "api" :: List.concat (map split_slash parts)))
    with ("api" :: List.filter kept_segment (List.concat (map split_slash parts))).
  set (K := List.filter kept_segment (List.concat (map split_slash parts))).
  assert (Hbody : is_empty (join_slash ("api" :: K)) = false) by by destruct K.
  rewrite Hbody. by destruct (endsWith_slash joined).
Qed.

Lemma clean_after_replace part seg :
  no_dot_segment part -> In seg (split_slash part) ->
  Forall clean (split_slash (replaceAll_backslash seg)).
Proof.
  unfold no_dot_segment. rewrite split_replaceAll.
  intros Hall Hin. apply Forall_concat in Hall.
  rewrite List.Forall_forall in Hall. apply Hall.
  apply in_map_iff. by exists seg.
Qed.

Lemma api_route_path rel declared :
  no_dot_segment rel -> no_dot_segment declared ->
  let p := leading_slash (replaceAll_backslash (Posix.join ["/api"; rel; declared])) in
  no_dot_segment p /\ (declared <> "" -> startsWith "/api/" p = true).
Proof.
  intros Hrel Hdecl.
  set (parts := List.filter (fun arg => negb (is_empty arg)) [rel; declared]).
  assert (Hjoin : Posix.join ["/api"; rel; declared]
                  = Posix.normalize (join_slash ("/api" :: parts))) by reflexivity.
  assert (Hin : forall part, In part parts -> no_dot_segment part).
  { intros part Hpart. apply List.filter_In in Hpart as [Hpart _].
    by destruct Hpart as [<-|[<-|[]]]. }
  assert (Hparts : Forall (fun part => Forall clean (split_slash part)) parts).
  { apply List.Forall_forall. intros part Hpart. by apply no_dot_segment_split, Hin. }
  cbv zeta. rewrite Hjoin, normalize_api_join by done. cbv zeta.
  set (S := List.concat (map split_slash parts)).
  set (K := List.filter kept_segment S).
  assert (HK : forall k, In k K -> Forall clean (split_slash (replaceAll_backslash k))).
  { intros k Hk. apply List.filter_In in Hk as [Hk _].
    apply in_concat in Hk as (segs & Hsegs & Hk).
    apply in_map_iff in Hsegs as (part & <- & Hpart).
    eapply clean_after_replace; [|exact Hk]. by apply Hin. }
  assert (Hbody : replaceAll_backslash (join_slash ("api" :: K))
                  = join_slash ("api" :: map replaceAll_backslash K)).
  { by rewrite replaceAll_join_slash. }
  assert (Hclean : Forall clean (split_slash (join_slash ("api" :: map replaceAll_backslash K)))).
  { rewrite split_join_slash by done. cbn [map List.concat].
    apply Forall_app. split; [by repeat constructor|].
    apply Forall_concat, Forall_map, Forall_map. by apply List.Forall_forall. }
  set (body' := join_slash ("api" :: map replaceAll_backslash K)) in *.
  set (ends := endsWith_slash (join_slash ("/api" :: parts))).
  assert (HRN : replaceAll_backslash
                  (if ends then "/" ++ join_slash ("api" :: K) ++ "/"
                   else "/" ++ join_slash ("api" :: K))
                = if ends then String slash (body' ++ String slash "")
                  else String slash body').
  { destruct ends.
    - change ("/" ++ join_slash ("api" :: K) ++ "/")
        with (String slash (join_slash ("api" :: K) ++ String slash "")).
      cbn [replaceAll_backslash]. by rewrite replaceAll_app, Hbody.
    - change ("/" ++ join_slash ("api" :: K))
        with (String slash (join_slash ("api" :: K))).
      cbn [replaceAll_backslash]. by rewrite Hbody. }
  rewrite HRN.
  assert (Hlead : forall rest, leading_slash (String slash rest) = String slash rest)
    by done.
  split.
  - unfold no_dot_segment. destruct ends; rewrite Hlead.
    + rewrite replaceAll_id.
      2:{ rewrite <- HRN. apply replaceAll_no_backslash. }
      change (split_slash (String slash (body' ++ String slash "")))
        with ("" :: split_slash (body' ++ String slash "")).
      constructor; [done|]. rewrite split_slash_app.
      apply Forall_app. split; [done|by repeat constructor].
    + rewrite replaceAll_id.
      2:{ rewrite <- HRN. apply replaceAll_no_backslash. }
      change (split_slash (String slash body')) with ("" :: split_slash body').
      by constructor.
  - intros Hne.
    destruct K as [|k K'] eqn:HKeq.
    + assert (Hends : endsWith_slash (join_slash ("/api" :: parts)) = true).
      { assert (Hlast : exists parts0, parts = (parts0 ++ [declared])%list).
        { unfold parts. cbn [List.filter]. rewrite (is_empty_false declared) by done.
          cbn [negb]. destruct (negb (is_empty rel)); [by exists [rel]|by exists []]. }
        destruct Hlast as [parts0 Hparts0]. rewrite Hparts0.
        change ("/api" :: parts0 ++ [declared])%list
          with (("/api" :: parts0) ++ [declared])%list.
        rewrite join_slash_snoc_ends by done.
        apply only_slashes_ends_with_slash; [|done].
        apply List.Forall_forall. intros seg Hseg.
        assert (HsegS : In seg S).
        { apply in_concat. exists (split_slash declared). split; [|done].
          apply in_map. rewrite Hparts0. apply in_or_app. right. by left. }
        apply filter_nil_Forall in HKeq. rewrite List.Forall_forall in HKeq.
        specialize (HKeq seg HsegS). unfold kept_segment in HKeq.
        apply negb_false_iff, orb_true_iff in HKeq as [Hempty|Hdot].
        - by apply String.eqb_eq in Hempty.
        - apply no_dot_segment_split in Hdecl. rewrite List.Forall_forall in Hdecl.
          specialize (Hdecl seg Hseg). unfold dot_segment in Hdecl.
          by rewrite Hdot in Hdecl. }
      fold ends in Hends. rewrite Hends. reflexivity.
    + destruct ends; rewrite Hlead; unfold body'; cbn [map];
        rewrite join_slash_cons by done; reflexivity.
Qed.

End ApiPrefix.

Section ApiRuns.
Context (env : Env).

Lemma clean_store_assign file files h l rel declared :
  clean_store env (file :: files) h -> no_dot_segment rel ->
  import_default env file = Return (VObj l) ->
  prop h (VObj l) "path" = VStr declared ->
  clean_store env files
    (assign h l "path"
       (VStr (leading_slash
                (JSString.replaceAll_backslash (Posix.join ["/api"; rel; declared]))))).
Proof.
  intros Hclean Hrel Himp Hdecl file' l' declared' Hin Himp'.
  destruct (decide (l = l')) as [<-|Hl].
  - rewrite prop_assign_eq. intros [= <-].
    apply api_route_path; [done|]. eapply (Hclean file); [by left|done|done].
  - rewrite prop_assign_other_object by done. apply (Hclean file'); [by right|done].
Qed.

Lemma api_loop ap files :
  (forall file, In file files ->
     no_dot_segment (Posix.relative (cwd env) ap (Posix.dirname file))) ->
  forall router w router' w',
    clean_store env files (heap w) ->
    Forall under_api router ->
    foldM (load_file env "/api" ap) files router w = (Return router', w') ->
    Forall under_api router'.
Proof.
  induction files as [|file files IH]; intros Hrel router w router' w' Hclean Hrouter.
  - by intros [= <- <-].
  - cbn [foldM]. unfold bind at 1.
    pose proof (load_file_step env "/api" ap router file w) as Hstep.
    assert (Hfile : no_dot_segment (Posix.relative (cwd env) ap (Posix.dirname file)))
      by (apply Hrel; by left).
    assert (Hrest : forall f, In f files ->
              no_dot_segment (Posix.relative (cwd env) ap (Posix.dirname f)))
      by (intros f Hf; apply Hrel; by right).
    assert (Htail : clean_store env files (heap w)).
    { intros f l d Hf. apply (Hclean f). by right. }
    destruct (load_file env "/api" ap router file w) as [[router1|e] w1];
      [|discriminate].
    inversion Hstep as [| warning | l declared warning Himp Hdecl
                       | l declared args message Himp Hdecl p methods Hcheck
                       | l declared args Himp Hdecl Hne Hm Hh Hs p methods Hcheck];
      subst; apply IH; try done.
    + rewrite heap_log_with_heap. by eapply clean_store_assign.
    + rewrite heap_log_with_heap. by eapply clean_store_assign.
    + rewrite heap_log_with_heap. by eapply clean_store_assign.
    + apply Forall_app. split; [done|]. constructor; [|done].
      unfold under_api. cbn [layer_path]. apply api_route_path; [done| |].
      * eapply (Hclean file); [by left|done|done].
      * by destruct declared.
Qed.

End ApiRuns.

(** C7, as stated, fails: [path.join] resolves [.] and [..] segments,
    so a valid descriptor can leave the prefix.  The module
    [/app/dots/up.js] declares the path [../admin]; loaded with the
    prefix [/api] it is registered under [/admin]. *)
Lemma dot_dot_path_escapes_api_prefix :
  prop (heap Demo.start) (VObj 11) "path" = VStr "../admin"
  /\ Demo.paths (fst (loadRouters Demo.host "/app/dots" (Demo.with_prefix "/api")
                           Demo.start))
     = ["/admin"]
  /\ JSString.startsWith "/api/" "/admin" = false.
Proof. vm_compute. repeat split. Qed.

(** C7 (amended): when the prefix is [/api] and, for every eligible
    file, neither its directory relative to the root nor the path held by
    the object it exports has a [.] or [..] segment (a backslash counting
    as a separator), every path registered on the returned router begins
    with [/api/]. *)
Theorem api_prefix_heads_every_path (env : Env) routers_dir options w router w' :
  opt_prefix options = Some "/api" ->
  (forall file, In file (eligible env routers_dir options w) ->
     no_dot_segment
       (Posix.relative (cwd env) (resolve_dir env routers_dir) (Posix.dirname file))) ->
  (forall file l declared,
     In file (eligible env routers_dir options w) ->
     import_default env file = Return (VObj l) ->
     prop (heap w) (VObj l) "path" = VStr declared -> no_dot_segment declared) ->
  loadRouters env routers_dir options w = (Return router, w') ->
  Forall (fun layer => JSString.startsWith "/api/" (layer_path layer) = true) router.
Proof.
  intros Hprefix Hrel Hclean.
  destruct (fs_access env (resolve_dir env routers_dir)) eqn:Hacc.
  2:{ by rewrite loadRouters_inaccessible. }
  rewrite loadRouters_accessible by done. rewrite Hprefix. cbn [default].
  unfold after_access, eligible in *.
  destruct (fs_readdir env (resolve_dir env routers_dir)) as [entries|e] eqn:Hdir.
  2:{ erewrite bind_throw; [done|].
      unfold readdir. erewrite bind_run by reflexivity.
      unfold lift_result. rewrite Hdir. reflexivity. }
  erewrite bind_run.
  2:{ unfold readdir. erewrite bind_run by reflexivity.
      unfold lift_result. rewrite Hdir. reflexivity. }
  rewrite log_log. simpl app.
  destruct (filterM_not_ignored_returns (default [] (opt_ignorePatterns options))
              (discover (default [".js"; ".ts"] (opt_fileExtensions options)) entries)
              (log w [EvAccess (resolve_dir env routers_dir);
                      EvReaddir (resolve_dir env routers_dir)]))
    as (kept & w1 & Hkept & Hheap & Htrace).
  rewrite Hkept in Hrel, Hclean. erewrite bind_run by exact Hkept.
  apply api_loop; [done| |done].
  rewrite Hheap. exact Hclean.
Qed.

Lemma api_prefix_heads_every_path_witness :
  Forall (fun layer => JSString.startsWith "/api/" (layer_path layer) = true)
    [ {| layer_path := "/api/login"; layer_methods := VArr [VStr "post"];
         layer_middleware := [Demo.handler] |};
      {| layer_path := "/api/v1/resource";
         layer_methods := VArr [VStr "post"; VStr "delete"];
         layer_middleware := [VFun "auth"; Demo.handler] |} ].
Proof.
  set (run := loadRouters Demo.host "/app/routes" (Demo.with_prefix "/api")
                Demo.start).
  assert (Hrun : run = (Return
                          [ {| layer_path := "/api/login";
                               layer_methods := VArr [VStr "post"];
                               layer_middleware := [Demo.handler] |};
                            {| layer_path := "/api/v1/resource";
                               layer_methods := VArr [VStr "post"; VStr "delete"];
                               layer_middleware := [VFun "auth"; Demo.handler] |} ],
                        snd run)).
  { vm_compute. reflexivity. }
  refine (api_prefix_heads_every_path Demo.host "/app/routes"
            (Demo.with_prefix "/api") Demo.start _ (snd run) _ _ _ Hrun).
  - reflexivity.
  - vm_compute eligible. intros file [<-|[<-|[]]]; vm_compute; repeat constructor.
  - vm_compute eligible. intros file l declared [<-|[<-|[]]] Himp Hdecl;
      vm_compute in Himp; injection Himp as <-;
      vm_compute in Hdecl; injection Hdecl as <-;
      vm_compute; repeat constructor.
Defined.

(** ** Per-file failures (C4) *)

Section Failures.
Context `{PathOps} (env : Env).

(** An iteration returns unless the module threw [undefined] or [null]. *)
Lemma load_file_returns prefix ap router file w :
  (forall v, import_default env file = Throw (ThrowValue v) -> nullish v = false) ->
  exists router' w', load_file env prefix ap router file w = (Return router', w').
Proof.
  intros Hthrown.
  pose proof (load_file_step env prefix ap router file w) as Hstep.
  inversion Hstep as [v Himp Hv| | | |]; eauto.
  apply Hthrown in Himp. congruence.
Qed.

Lemma loop_returns prefix ap files :
  (forall file v, In file files ->
     import_default env file = Throw (ThrowValue v) -> nullish v = false) ->
  forall router w,
    exists router' w',
      foldM (load_file env prefix ap) files router w = (Return router', w').
Proof.
  induction files as [|file files IH]; intros Hthrown router w; [by eexists _, _|].
  destruct (load_file_returns prefix ap router file w) as (router1 & w1 & Hstep).
  { intros v. apply Hthrown. by left. }
  cbn [foldM]. erewrite bind_run by exact Hstep.
  apply IH. intros f v Hf. apply Hthrown. by right.
Qed.

(** With the root directory listed, the load returns a router whatever
    the files do, as long as no module throws [undefined] or [null]. *)
Lemma per_file_failures_contained routers_dir options w entries :
  fs_access env (resolve_dir env routers_dir) = true ->
  fs_readdir env (resolve_dir env routers_dir) = Return entries ->
  (forall file v, In file (eligible env routers_dir options w) ->
     import_default env file = Throw (ThrowValue v) -> nullish v = false) ->
  exists router w', loadRouters env routers_dir options w = (Return router, w').
Proof.
  intros Hacc Hdir Hthrown. rewrite loadRouters_accessible by done.
  unfold after_access, eligible in *. rewrite Hdir in Hthrown.
  erewrite bind_run.
  2:{ unfold readdir. erewrite bind_run by reflexivity.
      unfold lift_result. rewrite Hdir. reflexivity. }
  rewrite log_log. simpl app.
  destruct (filterM_not_ignored_returns (default [] (opt_ignorePatterns options))
              (discover (default [".js"; ".ts"] (opt_fileExtensions options)) entries)
              (log w [EvAccess (resolve_dir env routers_dir);
                      EvReaddir (resolve_dir env routers_dir)]))
    as (kept & w1 & Hkept & _ & _).
  rewrite Hkept in Hthrown. erewrite bind_run by exact Hkept.
  by apply loop_returns.
Qed.

End Failures.

(** C4 is violated by the code: the [catch] clause reads
    [error.message], which itself throws when the module threw [null] or
    [undefined]; that error is outside every [try] block.  In the
    directory [/app/fatal] the module [null.js] throws [null] while it is
    evaluated: the load rejects, although the directory is accessible,
    and [ok.js] is never reached. *)
Theorem thrown_null_escapes_the_catch_clause :
  fs_access Demo.host "/app/fatal" = true
  /\ import_default Demo.host "/app/fatal/null.js" = Throw (ThrowValue VNull)
  /\ loadRouters Demo.host "/app/fatal" no_options Demo.start
     = (Throw (ThrowError "Cannot read properties of undefined or null"),
        log Demo.start
          [EvAccess "/app/fatal"; EvReaddir "/app/fatal"; EvImport "/app/fatal/null.js"]).
Proof. vm_compute. repeat split. Qed.

(** ** Two runs in succession (C5) *)

(** C5 is violated by the code: the loader writes the route path it
    computed into the object the module exports, and the host keeps that
    object for the next import.  A second run over the directory of the
    test suite with the same prefix [/api] joins the prefix onto paths
    that already carry it. *)
Theorem second_run_registers_other_paths :
  let options := Demo.with_prefix "/api" in
  let first := loadRouters Demo.host "/app/test_routers" options Demo.start in
  let second := loadRouters Demo.host "/app/test_routers" options (snd first) in
  Demo.paths (fst first)
  = ["/api/login"; "/api/resource/:id"; "/api/resource"; "/api/resource/:id"; "/api/ignore"]
  /\ Demo.paths (fst second)
     = ["/api/api/login"; "/api/api/resource/:id"; "/api/api/resource";
        "/api/api/resource/:id"; "/api/api/ignore"].
Proof. vm_compute. split; reflexivity. Qed.

(** ** Ignore patterns (C8) *)

Lemma re_test_stateless R S w :
  stateless R -> re_test R S w = (Return (matches R S), w).
Proof.
  intros [Hg Hy]. unfold re_test, matches. rewrite Hg, Hy. cbn [orb].
  rewrite Nat.sub_0_r. by destruct (re_search _ _ _ _).
Qed.

Lemma someM_stateless patterns file w :
  Forall stateless patterns ->
  someM (fun pattern => re_test pattern file) patterns w
  = (Return (existsb (fun pattern => matches pattern file) patterns), w).
Proof.
  induction 1 as [|R patterns HR _ IH]; [done|].
  cbn [someM existsb]. erewrite bind_run by by apply re_test_stateless.
  by destruct (matches R file).
Qed.

Lemma filterM_stateless patterns files w :
  Forall stateless patterns ->
  filterM (not_ignored patterns) files w
  = (Return (List.filter
               (fun file => negb (existsb (fun pattern => matches pattern file) patterns))
               files), w).
Proof.
  intros Hpatterns. induction files as [|file files IH]; [done|].
  cbn [filterM List.filter].
  erewrite bind_run.
  2:{ unfold not_ignored. erewrite bind_run by by apply someM_stateless. reflexivity. }
  erewrite bind_run by exact IH. reflexivity.
Qed.

(** With patterns that carry neither the [g] nor the [y] flag, the
    eligible files are the discovered ones that no pattern matches. *)
Lemma eligible_stateless `{PathOps} (env : Env) routers_dir options w entries :
  Forall stateless (default [] (opt_ignorePatterns options)) ->
  fs_readdir env (resolve_dir env routers_dir) = Return entries ->
  eligible env routers_dir options w
  = List.filter
      (fun file => negb (existsb (fun pattern => matches pattern file)
                           (default [] (opt_ignorePatterns options))))
      (discover (default [".js"; ".ts"] (opt_fileExtensions options)) entries).
Proof.
  intros Hpatterns Hdir. unfold eligible. rewrite Hdir.
  by rewrite filterM_stateless.
Qed.

(** With patterns that carry neither the [g] nor the [y] flag, a file
    matched by one of them is not eligible, hence never imported. *)
Lemma stateless_patterns_exclude `{PathOps} (env : Env) routers_dir options w file R :
  Forall stateless (default [] (opt_ignorePatterns options)) ->
  In R (default [] (opt_ignorePatterns options)) ->
  matches R file = true ->
  ~ In file (eligible env routers_dir options w).
Proof.
  intros Hpatterns HR Hmatch. unfold eligible.
  destruct (fs_readdir env (resolve_dir env routers_dir)); [|by intros []].
  rewrite filterM_stateless by done.
  intros [_ Hkeep]%List.filter_In.
  apply negb_true_iff in Hkeep.
  assert (existsb (fun pattern => matches pattern file)
            (default [] (opt_ignorePatterns options)) = true); [|congruence].
  apply existsb_exists. by exists R.
Qed.

(** C8 is violated by the code: [RegExp.prototype.test] starts at the
    [lastIndex] of a pattern with the [g] (or [y]) flag and moves it.
    With [ignorePatterns: [/resource/g]] over the directory of the test
    suite, [resource.get.js] is excluded and leaves [lastIndex] at 26;
    the test of [resource.create.js] starts there, fails and resets it;
    so that file, which the pattern matches, is imported and registered. *)
Theorem global_pattern_lets_matching_file_through :
  let file := "/app/test_routers/resource.create.js" in
  let run := loadRouters Demo.host "/app/test_routers"
               (Demo.ignoring [Demo.global_resource]) Demo.start in
  matches Demo.global_resource file = true
  /\ In file (eligible Demo.host "/app/test_routers"
                (Demo.ignoring [Demo.global_resource]) Demo.start)
  /\ Demo.paths (fst run) = ["/login"; "/resource"; "/ignore"]
  /\ In (EvImport file) (trace (snd run)).
Proof. vm_compute. repeat split; auto 10. Qed.

(** ** The scenarios of the repository's test suite

    The five tests of the repository, replayed on the model of its test
    directory (five route files, one of them [ignore.test.js], one of
    them a [.ts] file). *)

Example loads_all_route_files :
  Demo.paths (fst (loadRouters Demo.host "test_routers" no_options Demo.start))
  = ["/login"; "/resource/:id"; "/resource"; "/resource/:id"; "/ignore"].
Proof. vm_compute. reflexivity. Qed.

Example filters_by_file_extension :
  Demo.paths
    (fst (loadRouters Demo.host "test_routers"
            {| opt_prefix := None; opt_fileExtensions := Some [".js"];
               opt_ignorePatterns := None |} Demo.start))
  = ["/login"; "/resource/:id"; "/resource"; "/ignore"].
Proof. vm_compute. reflexivity. Qed.

Example filters_by_ignore_pattern :
  Demo.paths
    (fst (loadRouters Demo.host "test_routers"
            (Demo.ignoring [Demo.test_js]) Demo.start))
  = ["/login"; "/resource/:id"; "/resource"; "/resource/:id"].
Proof. vm_compute. reflexivity. Qed.

Example rejects_missing_directory :
  fst (loadRouters Demo.host "/non/existent/directory" no_options Demo.start)
  = Throw (directory_error "/non/existent/directory").
Proof. vm_compute. reflexivity. Qed.

Example applies_route_prefix :
  forallb (JSString.startsWith "/api/")
    (Demo.paths (fst (loadRouters Demo.host "test_routers"
                           (Demo.with_prefix "/api") Demo.start)))
  = true.
Proof. vm_compute. reflexivity. Qed.

(** ** N valid files give N entries, in discovery order (C6) *)

Lemma load_file_valid `{PathOps} (env : Env) prefix ap router file w l path
    methods handlers :
  import_default env file = Return (VObj l) ->
  valid_descriptor (heap w) l path methods handlers ->
  frozen env l = false ->
  router_check env (route_path env prefix ap file path) (VArr methods) handlers = None ->
  load_file env prefix ap router file w
  = (Return (router ++ [{| layer_path := route_path env prefix ap file path;
                           layer_methods := VArr methods;
                           layer_middleware := handlers |}])%list,
     log (with_heap w (assign (heap w) l "path"
                         (VStr (route_path env prefix ap file path))))
       [EvImport file;
        EvRegister (route_path env prefix ap file path) (VArr methods) handlers]).
Proof.
  intros Himp (Hpath & Hne & Hms & _ & _ & Hhs & _ & _) Hwritable Hcheck.
  unfold load_file. erewrite try_catch_run.
  2:{ rewrite (load_body_valid env prefix ap router file w l path); try done.
      - rewrite Hhs, Hms. erewrite bind_run by reflexivity.
        by apply register_accepts.
      - unfold descriptor_falsy. rewrite Hpath, Hms, Hhs. simpl.
        by rewrite is_empty_false. }
  by rewrite log_log.
Qed.

Lemma loop_in_turn `{PathOps} (env : Env) prefix ap h files es :
  registered_in_turn env prefix ap h files es ->
  forall router w,
    heap w = h ->
    exists layers w',
      foldM (load_file env prefix ap) files router w
      = (Return (router ++ layers)%list, w')
      /\ List.length layers = List.length files
      /\ map layer_path layers = registered_paths es
      /\ imports es = files
      /\ trace w' = (trace w ++ es)%list.
Proof.
  induction 1 as [h|h file files l path methods handlers es
                    Himp Hvalid Hwritable Hcheck Hrest IH];
    intros router w Hheap.
  - exists [], w. cbn. by rewrite !app_nil_r.
  - subst h. cbn [foldM]. erewrite bind_run by by apply load_file_valid.
    edestruct IH as (layers & w' & Hrun & Hlen & Hpaths & Himports & Htrace);
      [apply heap_log_with_heap|].
    eexists (_ :: layers), w'. split; [by rewrite Hrun, <- app_assoc|].
    split; [cbn; by rewrite Hlen|].
    split; [unfold registered_paths in *; cbn; by rewrite Hpaths|].
    split; [unfold imports in *; cbn; by rewrite Himports|].
    rewrite Htrace. cbn [trace log]. by rewrite <- app_assoc.
Qed.

(** With file names as directory entries have them, the discovered files
    that no pattern matches are the eligible files of the listing. *)
Lemma eligible_files_spec exts patterns entries :
  Forall (fun p => JSString.includes_char JSString.slash (d_name p) = false) entries ->
  List.filter (fun file => negb (existsb (fun pattern => matches pattern file) patterns))
    (discover exts entries)
  = eligible_files exts patterns entries.
Proof.
  intros Hnames. unfold discover, eligible_files.
  induction Hnames as [|p entries Hp _ IH]; [done|].
  cbn [List.filter]. unfold wanted at 1, eligible_entry at 1.
  simpl extname. rewrite (extname_of_file_name _ Hp).
  fold (file_extension (d_name p)).
  destruct (isFile p && includes (file_extension (d_name p)) exts); [|exact IH].
  cbn [andb map List.filter].
  destruct (negb (existsb _ patterns)); cbn [map]; by rewrite IH.
Qed.

(** C6, as stated, fails: a valid descriptor need not end up in the
    router.  The three files of [/app/strict] are eligible and each
    exports a valid descriptor; the router refuses the path of the
    first, the second is frozen, so that the assignment to its [path]
    throws, and both are skipped with a warning inside the [try] block:
    the returned router has one entry for three valid files. *)
Lemma valid_descriptor_is_not_always_registered :
  eligible_files [".js"; ".ts"] [] Edge.strict_entries
  = ["/app/strict/files.js"; "/app/strict/sealed.js"; "/app/strict/open.js"]
  /\ import_default Edge.strict "/app/strict/files.js" = Return (VObj 1)
  /\ valid_descriptor Edge.strict_exports 1 "/files/*" [VStr "get"] [Demo.handler]
  /\ import_default Edge.strict "/app/strict/sealed.js" = Return (VObj 2)
  /\ valid_descriptor Edge.strict_exports 2 "/sealed" [VStr "get"] [Demo.handler]
  /\ import_default Edge.strict "/app/strict/open.js" = Return (VObj 3)
  /\ valid_descriptor Edge.strict_exports 3 "/open" [VStr "get"] [Demo.handler]
  /\ Demo.paths (fst (loadRouters Edge.strict "/app/strict" no_options Edge.strict_start))
     = ["/open"]
  /\ warnings (trace (snd (loadRouters Edge.strict "/app/strict" no_options
                             Edge.strict_start))) = 2%nat.
Proof.
  unfold valid_descriptor.
  repeat split; try (vm_compute; reflexivity); discriminate.
Qed.

(** C6 (amended): when the root directory is listed, the ignore
    patterns carry neither the [g] nor the [y] flag, and each of the N
    eligible files of the listing (regular files whose extension is in
    [fileExtensions] and whose path no pattern matches) exports, when
    its turn comes, a valid descriptor that is not frozen and that the
    router accepts under the route path computed for it, the load
    returns a router with exactly N entries; the files are imported and
    registered one after the other in listing order, and the paths of
    the entries are the computed route paths in that order. *)
Theorem every_valid_file_registered_in_order (env : Env)
    routers_dir options w entries es :
  let absolute_path := resolve_dir env routers_dir in
  let patterns := default [] (opt_ignorePatterns options) in
  let files := eligible_files (default [".js"; ".ts"] (opt_fileExtensions options))
                 patterns entries in
  fs_access env absolute_path = true ->
  fs_readdir env absolute_path = Return entries ->
  Forall (fun p => JSString.includes_char JSString.slash (d_name p) = false) entries ->
  Forall stateless patterns ->
  registered_in_turn env (default "" (opt_prefix options)) absolute_path (heap w)
    files es ->
  exists router w',
    loadRouters env routers_dir options w = (Return router, w')
    /\ List.length router = List.length files
    /\ map layer_path router = registered_paths es
    /\ imports es = files
    /\ trace w' = (trace w ++ [EvAccess absolute_path; EvReaddir absolute_path]
                   ++ es)%list.
Proof.
  intros ap patterns files Hacc Hdir Hnames Hpatterns Hturn.
  rewrite loadRouters_accessible by done. fold ap.
  unfold after_access.
  erewrite bind_run.
  2:{ unfold readdir. erewrite bind_run by reflexivity.
      unfold lift_result. fold ap. rewrite Hdir. reflexivity. }
  rewrite log_log. simpl app.
  erewrite bind_run by by apply filterM_stateless.
  fold patterns. rewrite eligible_files_spec by done. fold files.
  destruct (loop_in_turn env _ _ _ _ _ Hturn new_Router
              (log w [EvAccess ap; EvReaddir ap]) eq_refl)
    as (layers & w' & Hrun & Hlen & Hpaths & Himports & Htrace).
  exists layers, w'. split; [exact Hrun|]. repeat split; try done.
  rewrite Htrace. cbn [trace log]. by rewrite <- app_assoc.
Qed.

Lemma every_valid_file_registered_in_order_witness :
  exists router w',
    loadRouters Demo.host "/app/test_routers" (Demo.ignoring [Demo.test_js]) Demo.start
    = (Return router, w')
    /\ List.length router = 4%nat
    /\ map layer_path router = ["/login"; "/resource/:id"; "/resource"; "/resource/:id"].
Proof.
  edestruct (every_valid_file_registered_in_order Demo.host "/app/test_routers"
               (Demo.ignoring [Demo.test_js]) Demo.start
               [ Demo.file_in "/app/test_routers" "user.login.js";
                 Demo.file_in "/app/test_routers" "resource.get.js";
                 Demo.file_in "/app/test_routers" "resource.create.js";
                 Demo.file_in "/app/test_routers" "resource.delete.ts";
                 Demo.file_in "/app/test_routers" "ignore.test.js" ])
    as (router & w' & Hrun & Hlen & Hpaths & _).
  - vm_compute. reflexivity.
  - vm_compute. reflexivity.
  - repeat constructor.
  - repeat constructor.
  - vm_compute eligible_files. vm_compute resolve_dir. cbn [default Demo.ignoring opt_prefix].
    repeat (eapply in_turn_cons;
            [ vm_compute; reflexivity
            | unfold valid_descriptor;
              repeat split; try (vm_compute; reflexivity); discriminate
            | reflexivity
            | vm_compute; reflexivity
            | ]).
    apply in_turn_nil.
  - exists router, w'. split; [exact Hrun|].
    rewrite Hlen, Hpaths. split; vm_compute; reflexivity.
Defined.

(** * Further properties of the loader *)

(** ** Accounting for the files of a run *)

Lemma imports_app es1 es2 : imports (es1 ++ es2) = (imports es1 ++ imports es2)%list.
Proof. unfold imports. apply omap_app. Qed.

Lemma warnings_app es1 es2 : warnings (es1 ++ es2) = (warnings es1 + warnings es2)%nat.
Proof. unfold warnings. by rewrite List.filter_app, length_app. Qed.

Section Accounting.
Context `{PathOps} (env : Env).

(** One iteration imports its file once, and either warns once or adds
    one layer; it leaves [lastIndex] alone. *)
Lemma load_file_accounting prefix ap router file w r w1 :
  load_file env prefix ap router file w = (r, w1) ->
  exists es,
    trace w1 = (trace w ++ es)%list
    /\ imports es = [file]
    /\ lastIndex w1 = lastIndex w
    /\ match r with
       | Throw _ => True
       | Return router1 =>
           exists layers, router1 = (router ++ layers)%list
                          /\ (List.length layers + warnings es = 1)%nat
       end.
Proof.
  intros Hrun.
  pose proof (load_file_step env prefix ap router file w) as Hstep.
  rewrite Hrun in Hstep.
  inversion Hstep; subst; (eexists; split; [reflexivity|]; split; [reflexivity|];
    split; [reflexivity|]); try done.
  - exists []. by rewrite app_nil_r.
  - exists []. by rewrite app_nil_r.
  - exists []. by rewrite app_nil_r.
  - by eexists [_].
Qed.

Lemma loop_accounting prefix ap files :
  forall router w r w',
    foldM (load_file env prefix ap) files router w = (r, w') ->
    exists es,
      trace w' = (trace w ++ es)%list
      /\ lastIndex w' = lastIndex w
      /\ match r with
         | Throw _ => exists rest, files = (imports es ++ rest)%list
         | Return router' =>
             imports es = files
             /\ exists layers, router' = (router ++ layers)%list
                  /\ (List.length layers + warnings es = List.length files)%nat
         end.
Proof.
  induction files as [|file files IH]; intros router w r w'.
  - intros [= <- <-]. exists []. rewrite app_nil_r. repeat split.
    exists []. by rewrite app_nil_r.
  - cbn [foldM]. unfold bind at 1.
    destruct (load_file env prefix ap router file w) as [[router1|e] w1] eqn:Hstep.
    + destruct (load_file_accounting _ _ _ _ _ _ _ Hstep)
        as (es1 & Ht1 & Hi1 & Hl1 & layers1 & -> & Hn1).
      intros Hrest. destruct (IH _ _ _ _ Hrest) as (es2 & Ht2 & Hl2 & Hr).
      exists (es1 ++ es2)%list. split; [by rewrite Ht2, Ht1, app_assoc|].
      split; [congruence|]. rewrite imports_app, Hi1. destruct r as [router'|e].
      * destruct Hr as (Hi2 & layers2 & -> & Hn2). split; [by rewrite Hi2|].
        exists (layers1 ++ layers2)%list. split; [by rewrite app_assoc|].
        rewrite warnings_app, length_app. cbn [List.length]. lia.
      * destruct Hr as (rest & ->). by exists rest.
    + intros [= <- <-].
      destruct (load_file_accounting _ _ _ _ _ _ _ Hstep) as (es1 & Ht1 & Hi1 & Hl1 & _).
      exists es1. split; [done|]. split; [done|]. exists files. by rewrite Hi1.
Qed.

End Accounting.

(** ** The shape of a run *)

Section RunShape.
Context `{PathOps} (env : Env).

(** When the root is listed, a run is the loop over the eligible files,
    started in a world that differs from the initial one by the two
    file-system calls and by what the pattern filter did to [lastIndex]. *)
Lemma loadRouters_listed routers_dir options w entries :
  fs_access env (resolve_dir env routers_dir) = true ->
  fs_readdir env (resolve_dir env routers_dir) = Return entries ->
  exists w1,
    heap w1 = heap w
    /\ trace w1 = (trace w ++ [EvAccess (resolve_dir env routers_dir);
                               EvReaddir (resolve_dir env routers_dir)])%list
    /\ loadRouters env routers_dir options w
       = foldM (load_file env (default "" (opt_prefix options))
                  (resolve_dir env routers_dir))
           (eligible env routers_dir options w) new_Router w1.
Proof.
  intros Hacc Hdir. rewrite loadRouters_accessible by done.
  unfold after_access, eligible. rewrite Hdir.
  erewrite bind_run.
  2:{ unfold readdir. erewrite bind_run by reflexivity.
      unfold lift_result. rewrite Hdir. reflexivity. }
  rewrite log_log. simpl app.
  destruct (filterM_not_ignored_returns (default [] (opt_ignorePatterns options))
              (discover (default [".js"; ".ts"] (opt_fileExtensions options)) entries)
              (log w [EvAccess (resolve_dir env routers_dir);
                      EvReaddir (resolve_dir env routers_dir)]))
    as (kept & w1 & Hkept & Hheap & Htrace).
  rewrite Hkept. erewrite bind_run by exact Hkept.
  exists w1. by repeat split.
Qed.

Lemma loadRouters_unlisted routers_dir options w e :
  fs_access env (resolve_dir env routers_dir) = true ->
  fs_readdir env (resolve_dir env routers_dir) = Throw e ->
  loadRouters env routers_dir options w
  = (Throw e, log w [EvAccess (resolve_dir env routers_dir);
                     EvReaddir (resolve_dir env routers_dir)]).
Proof.
  intros Hacc Hdir. rewrite loadRouters_accessible by done.
  unfold after_access. erewrite bind_throw; [reflexivity|].
  unfold readdir. erewrite bind_run by reflexivity.
  unfold lift_result. rewrite Hdir. by rewrite log_log.
Qed.

(** A run that returns a router went through the access check and the
    listing. *)
Lemma loadRouters_returned routers_dir options w router w' :
  loadRouters env routers_dir options w = (Return router, w') ->
  fs_access env (resolve_dir env routers_dir) = true
  /\ exists entries, fs_readdir env (resolve_dir env routers_dir) = Return entries.
Proof.
  intros Hrun.
  destruct (fs_access env (resolve_dir env routers_dir)) eqn:Hacc.
  2:{ by rewrite loadRouters_inaccessible in Hrun. }
  split; [done|].
  destruct (fs_readdir env (resolve_dir env routers_dir)) as [entries|e] eqn:Hdir.
  - by exists entries.
  - by rewrite (loadRouters_unlisted _ _ _ e) in Hrun.
Qed.

End RunShape.

(** X1: a root that passes the access check but cannot be listed (a
    regular file, a directory without read permission) makes the load
    reject with the error of [fs.readdir] itself, not with the
    directory error of the loader; nothing is imported, registered or
    written. *)
Theorem listing_failure_rejects_with_its_own_error `{PathOps} (env : Env)
    routers_dir options w e :
  fs_access env (resolve_dir env routers_dir) = true ->
  fs_readdir env (resolve_dir env routers_dir) = Throw e ->
  loadRouters env routers_dir options w
  = (Throw e, log w [EvAccess (resolve_dir env routers_dir);
                     EvReaddir (resolve_dir env routers_dir)]).
Proof. apply loadRouters_unlisted. Qed.

Lemma listing_failure_rejects_with_its_own_error_witness :
  fs_access Edge.file_root (resolve_dir Edge.file_root "index.js") = true
  /\ loadRouters Edge.file_root "index.js" no_options Demo.start
     = (Throw Edge.not_a_directory,
        log Demo.start [EvAccess "/app/index.js"; EvReaddir "/app/index.js"]).
Proof.
  split; [vm_compute; reflexivity|].
  refine (listing_failure_rejects_with_its_own_error Edge.file_root "index.js"
            no_options Demo.start Edge.not_a_directory _ _);
    vm_compute; reflexivity.
Defined.

(** X2: a run that returns a router has imported every eligible file
    exactly once, in discovery order, after one access check and one
    listing of the resolved root, and has imported nothing else. *)
Theorem returned_run_imports_eligible_files_in_order `{PathOps} (env : Env)
    routers_dir options w router w' :
  loadRouters env routers_dir options w = (Return router, w') ->
  exists es,
    trace w' = (trace w ++ [EvAccess (resolve_dir env routers_dir);
                            EvReaddir (resolve_dir env routers_dir)] ++ es)%list
    /\ imports es = eligible env routers_dir options w
    /\ Forall (loop_event (eligible env routers_dir options w)) es.
Proof.
  intros Hrun.
  destruct (loadRouters_returned env _ _ _ _ _ Hrun) as (Hacc & entries & Hdir).
  destruct (loadRouters_calls env _ _ _ _ _ _ Hacc Hdir Hrun) as (es0 & Hes0 & Hall).
  destruct (loadRouters_listed env routers_dir options w entries Hacc Hdir)
    as (w1 & Hheap & Htrace & Heq).
  rewrite Heq in Hrun.
  destruct (loop_accounting env _ _ _ _ _ _ _ Hrun) as (es & Hes & _ & Himports & _).
  exists es. split; [|split; [done|]].
  - rewrite Hes, Htrace. by rewrite <- app_assoc.
  - rewrite Hes, Htrace, <- app_assoc in Hes0.
    apply app_inv_head in Hes0. apply app_inv_head in Hes0. by subst.
Qed.

(** X3: in a run that returns a router every eligible file is accounted
    for: the number of layers of the router plus the number of warnings
    logged equals the number of eligible files. *)
Theorem every_eligible_file_is_registered_or_warned_about `{PathOps} (env : Env)
    routers_dir options w router w' :
  loadRouters env routers_dir options w = (Return router, w') ->
  exists es,
    trace w' = (trace w ++ es)%list
    /\ (List.length router + warnings es
        = List.length (eligible env routers_dir options w))%nat.
Proof.
  intros Hrun.
  destruct (loadRouters_returned env _ _ _ _ _ Hrun) as (Hacc & entries & Hdir).
  destruct (loadRouters_listed env routers_dir options w entries Hacc Hdir)
    as (w1 & Hheap & Htrace & Heq).
  rewrite Heq in Hrun.
  destruct (loop_accounting env _ _ _ _ _ _ _ Hrun)
    as (es & Hes & _ & _ & layers & -> & Hcount).
  eexists. split; [by rewrite Hes, Htrace, <- app_assoc|].
  rewrite warnings_app. cbn [app]. exact Hcount.
Qed.

Lemma returned_run_imports_eligible_files_in_order_witness :
  let run := loadRouters Demo.host "/app/skip" no_options Demo.start in
  fst run = Return [{| layer_path := "/ok"; layer_methods := VArr [VStr "get"];
                       layer_middleware := [Demo.handler] |}]
  /\ exists es,
       trace (snd run) = ([EvAccess "/app/skip"; EvReaddir "/app/skip"] ++ es)%list
       /\ imports es = ["/app/skip/export-none.js"; "/app/skip/no-methods.js";
                        "/app/skip/boom.js"; "/app/skip/thrown-string.js";
                        "/app/skip/ok.js"].
Proof.
  intros run.
  assert (Hrun : run = (Return [{| layer_path := "/ok"; layer_methods := VArr [VStr "get"];
                                   layer_middleware := [Demo.handler] |}], snd run)).
  { vm_compute. reflexivity. }
  split; [by rewrite Hrun|].
  destruct (returned_run_imports_eligible_files_in_order Demo.host _ _ _ _ _ Hrun)
    as (es & Hes & Himports & _).
  exists es. split; [exact Hes|]. rewrite Himports. vm_compute. reflexivity.
Defined.

Lemma every_eligible_file_is_registered_or_warned_about_witness :
  let run := loadRouters Demo.host "/app/skip" no_options Demo.start in
  fst run = Return [{| layer_path := "/ok"; layer_methods := VArr [VStr "get"];
                       layer_middleware := [Demo.handler] |}]
  /\ exists es,
       trace (snd run) = es /\ (1 + warnings es = 5)%nat.
Proof.
  intros run.
  assert (Hrun : run = (Return [{| layer_path := "/ok"; layer_methods := VArr [VStr "get"];
                                   layer_middleware := [Demo.handler] |}], snd run)).
  { vm_compute. reflexivity. }
  split; [by rewrite Hrun|].
  destruct (every_eligible_file_is_registered_or_warned_about Demo.host _ _ _ _ _ Hrun)
    as (es & Hes & Hcount).
  exists es. split; [exact Hes|].
  replace 5%nat with (List.length (eligible Demo.host "/app/skip" no_options Demo.start))
    by (vm_compute; reflexivity).
  exact Hcount.
Defined.

(** ** What a run leaves in the module store *)

Section Frame.
Context `{PathOps} (env : Env).

Lemma route_path_shape prefix ap file declared :
  JSString.startsWith_slash (route_path env prefix ap file declared) = true
  /\ JSString.includes_char JSString.backslash (route_path env prefix ap file declared)
     = false.
Proof.
  unfold route_path. split; [apply leading_slash_starts|].
  apply leading_slash_no_backslash, replaceAll_no_backslash.
Qed.

(** An iteration leaves the store alone or rewrites the path of the
    object its file exports. *)
Lemma load_file_store prefix ap router file w r w1 :
  load_file env prefix ap router file w = (r, w1) ->
  heap w1 = heap w
  \/ exists l declared,
       import_default env file = Return (VObj l)
       /\ prop (heap w) (VObj l) "path" = VStr declared
       /\ heap w1 = assign (heap w) l "path"
                      (VStr (route_path env prefix ap file declared)).
Proof.
  intros Hrun.
  pose proof (load_file_step env prefix ap router file w) as Hstep.
  rewrite Hrun in Hstep.
  inversion Hstep; subst; [by left|by left|right|right|right];
    by eexists _, _.
Qed.


Lemma store_frame_refl files h : store_frame env files h h.
Proof. repeat split; auto. Qed.

Lemma store_frame_step prefix ap file files h l declared h' :
  import_default env file = Return (VObj l) ->
  store_frame env files
    (assign h l "path" (VStr (route_path env prefix ap file declared))) h' ->
  store_frame env (file :: files) h h'.
Proof.
  intros Himp (Hkeys & Hothers & Hpaths). split; [|split].
  - intros l0 key Hkey. rewrite Hkeys by done. by apply prop_assign_frame.
  - intros l0 Hl0. rewrite Hothers.
    + apply assign_lookup_other. intros ->. by apply (Hl0 file); [left|].
    + intros f Hf. apply Hl0. by right.
  - intros l0. destruct (Hpaths l0) as [Hsame|Hnew]; [|by right].
    rewrite Hsame. destruct (decide (l = l0)) as [<-|Hne].
    + right. rewrite prop_assign_eq. eexists. split; [done|]. apply route_path_shape.
    + left. by apply prop_assign_other_object.
Qed.

Lemma store_frame_skip file files h h' :
  store_frame env files h h' -> store_frame env (file :: files) h h'.
Proof.
  intros (Hkeys & Hothers & Hpaths). split; [done|]. split; [|done].
  intros l Hl. apply Hothers. intros f Hf. apply Hl. by right.
Qed.

Lemma loop_store prefix ap files :
  forall router w r w',
    foldM (load_file env prefix ap) files router w = (r, w') ->
    store_frame env files (heap w) (heap w').
Proof.
  induction files as [|file files IH]; intros router w r w'.
  - intros [= <- <-]. apply store_frame_refl.
  - cbn [foldM]. unfold bind at 1.
    destruct (load_file env prefix ap router file w) as [[router1|e] w1] eqn:Hstep.
    + intros Hrest. apply IH in Hrest.
      destruct (load_file_store _ _ _ _ _ _ _ Hstep)
        as [Hsame|(l & declared & Himp & Hdecl & Hnew)].
      * rewrite Hsame in Hrest. by apply store_frame_skip.
      * rewrite Hnew in Hrest. by eapply store_frame_step.
    + intros [= <- <-].
      destruct (load_file_store _ _ _ _ _ _ _ Hstep)
        as [Hsame|(l & declared & Himp & Hdecl & Hnew)].
      * rewrite Hsame. apply store_frame_refl.
      * rewrite Hnew. eapply store_frame_step; [done|]. apply store_frame_refl.
Qed.

End Frame.

(** X4: whatever a run does and however it ends, it changes nothing in
    the module store but [path] properties of objects exported by
    eligible files: every other property of every object keeps its value,
    objects that no eligible file exports are untouched, and a [path]
    that changed is a string that starts with a slash and contains no
    backslash. *)
Theorem run_only_rewrites_paths_of_exported_objects `{PathOps} (env : Env)
    routers_dir options w :
  store_frame env (eligible env routers_dir options w)
    (heap w) (heap (snd (loadRouters env routers_dir options w))).
Proof.
  destruct (loadRouters env routers_dir options w) as [r w'] eqn:Hrun. cbn [snd].
  destruct (fs_access env (resolve_dir env routers_dir)) eqn:Hacc.
  2:{ rewrite loadRouters_inaccessible in Hrun by done. injection Hrun as <- <-.
      apply store_frame_refl. }
  destruct (fs_readdir env (resolve_dir env routers_dir)) as [entries|e] eqn:Hdir.
  2:{ rewrite (loadRouters_unlisted env _ _ _ e) in Hrun by done.
      injection Hrun as <- <-. apply store_frame_refl. }
  destruct (loadRouters_listed env routers_dir options w entries Hacc Hdir)
    as (w1 & Hheap & Htrace & Heq).
  rewrite Heq in Hrun. apply loop_store in Hrun. by rewrite Hheap in Hrun.
Qed.

(** ** The paths of a returned router, on any host *)

Section Slashed.
Context `{PathOps} (env : Env).

Lemma load_file_slashed prefix ap router file w router1 w1 :
  load_file env prefix ap router file w = (Return router1, w1) ->
  Forall slashed router -> Forall slashed router1.
Proof.
  intros Hrun Hrouter.
  pose proof (load_file_step env prefix ap router file w) as Hstep.
  rewrite Hrun in Hstep. inversion Hstep; subst; try done.
  apply Forall_app. split; [done|]. constructor; [|done].
  apply route_path_shape.
Qed.

Lemma loop_slashed prefix ap files :
  forall router w router' w',
    foldM (load_file env prefix ap) files router w = (Return router', w') ->
    Forall slashed router -> Forall slashed router'.
Proof.
  induction files as [|file files IH]; intros router w router' w'.
  - by intros [= <- <-].
  - cbn [foldM]. unfold bind at 1.
    destruct (load_file env prefix ap router file w) as [[router1|e] w1] eqn:Hstep;
      [|discriminate].
    intros Hrest Hrouter. eapply IH; [exact Hrest|]. by eapply load_file_slashed.
Qed.

End Slashed.

(** X5: on any host, whatever its path separator, every path of a
    returned router starts with a slash and contains no backslash. *)
Theorem returned_paths_start_with_slash_without_backslash `{PathOps} (env : Env)
    routers_dir options w :
  match fst (loadRouters env routers_dir options w) with
  | Return router => Forall slashed router
  | Throw _ => True
  end.
Proof.
  destruct (loadRouters env routers_dir options w) as [[router|e] w'] eqn:Hrun;
    cbn [fst]; [|done].
  destruct (loadRouters_returned env _ _ _ _ _ Hrun) as (Hacc & entries & Hdir).
  destruct (loadRouters_listed env routers_dir options w entries Hacc Hdir)
    as (w1 & _ & _ & Heq).
  rewrite Heq in Hrun. eapply loop_slashed; [exact Hrun|]. constructor.
Qed.

(** ** Files that fail after they were loaded *)

Lemma not_falsy h l :
  truthy (prop h (VObj l) "path") = true ->
  truthy (prop h (VObj l) "methods") = true ->
  truthy (prop h (VObj l) "handlers") = true ->
  descriptor_falsy h (VObj l) = false.
Proof. unfold descriptor_falsy. by intros -> -> ->. Qed.

Lemma truthy_nonempty s : s <> "" -> truthy (VStr s) = true.
Proof. intros Hs. simpl. by rewrite is_empty_false. Qed.

(** X6: a descriptor whose [path] is truthy but not a string (a number,
    an array, an object) is skipped: [path.join] throws inside the [try]
    block, a failure warning naming the file is logged, no layer is
    added and the exported object is left as it was. *)
Theorem non_string_path_is_skipped_untouched `{PathOps} (env : Env)
    prefix ap router file w l :
  import_default env file = Return (VObj l) ->
  truthy (prop (heap w) (VObj l) "path") = true ->
  is_string (prop (heap w) (VObj l) "path") = false ->
  truthy (prop (heap w) (VObj l) "methods") = true ->
  truthy (prop (heap w) (VObj l) "handlers") = true ->
  exists message,
    load_file env prefix ap router file w
    = (Return router, log w [EvImport file; EvWarn (failure_warning file message)]).
Proof.
  intros Himp Hpath Hstr Hmethods Hhandlers. eexists.
  apply (load_file_not_string env prefix ap router file w l); [done| |done].
  by apply not_falsy.
Qed.

Lemma non_string_path_is_skipped_untouched_witness :
  exists message,
    load_file Edge.odd "/api" "/app/odd" new_Router "/app/odd/number.js" Edge.odd_start
    = (Return new_Router,
       log Edge.odd_start
         [EvImport "/app/odd/number.js";
          EvWarn (failure_warning "/app/odd/number.js" message)]).
Proof.
  refine (non_string_path_is_skipped_untouched Edge.odd "/api" "/app/odd" new_Router
            "/app/odd/number.js" Edge.odd_start 1%positive _ _ _ _ _);
    vm_compute; reflexivity.
Defined.

(** X7: when the router refuses a registration (the three assignments
    to [path] before it went through: the exported object is not
    frozen), the loader logs a failure warning that carries the router's
    message and adds no layer, but the [path] of the exported object has
    already been overwritten with the computed route path and stays
    so. *)
Theorem refused_registration_keeps_rewritten_path `{PathOps} (env : Env)
    prefix ap router file w l declared handlers message :
  import_default env file = Return (VObj l) ->
  prop (heap w) (VObj l) "path" = VStr declared -> declared <> "" ->
  frozen env l = false ->
  truthy (prop (heap w) (VObj l) "methods") = true ->
  prop (heap w) (VObj l) "handlers" = VArr handlers ->
  router_check env (route_path env prefix ap file declared)
    (prop (heap w) (VObj l) "methods") handlers = Some message ->
  load_file env prefix ap router file w
  = (Return router,
     log (with_heap w (assign (heap w) l "path"
                         (VStr (route_path env prefix ap file declared))))
       [EvImport file;
        EvRegister (route_path env prefix ap file declared)
          (prop (heap w) (VObj l) "methods") handlers;
        EvWarn (failure_warning file (VStr message))]).
Proof.
  intros Himp Hdecl Hne Hwritable Hmethods Hhandlers Hcheck.
  unfold load_file. erewrite try_catch_throw.
  2:{ rewrite (load_body_valid env prefix ap router file w l declared); try done.
      - rewrite Hhandlers. erewrite bind_run by reflexivity.
        by apply register_throws.
      - apply not_falsy; try done.
        + rewrite Hdecl. by apply truthy_nonempty.
        + by rewrite Hhandlers. }
  unfold bind, error_message, console_warn, emit, ret. cbn beta iota.
  by rewrite !log_log.
Qed.

Lemma refused_registration_keeps_rewritten_path_witness :
  let run := load_file Edge.odd "/api" "/app/odd" new_Router "/app/odd/refused.js"
               Edge.odd_start in
  fst run = Return new_Router
  /\ prop (heap (snd run)) (VObj 2) "path" = VStr "/api/refused"
  /\ trace (snd run)
     = [EvImport "/app/odd/refused.js";
        EvRegister "/api/refused" (VArr [VStr "get"]) [VStr "not a function"];
        EvWarn (failure_warning "/app/odd/refused.js"
                  (VStr "middleware must be a function"))].
Proof.
  intros run.
  assert (Hrun : run
                 = (Return new_Router,
                    log (with_heap Edge.odd_start
                           (assign (heap Edge.odd_start) 2 "path"
                              (VStr (route_path Edge.odd "/api" "/app/odd"
                                       "/app/odd/refused.js" "/refused"))))
                      [EvImport "/app/odd/refused.js";
                       EvRegister (route_path Edge.odd "/api" "/app/odd"
                                     "/app/odd/refused.js" "/refused")
                         (prop (heap Edge.odd_start) (VObj 2) "methods")
                         [VStr "not a function"];
                       EvWarn (failure_warning "/app/odd/refused.js"
                                 (VStr "middleware must be a function"))])).
  { refine (refused_registration_keeps_rewritten_path Edge.odd "/api" "/app/odd"
              new_Router "/app/odd/refused.js" Edge.odd_start 2%positive "/refused"
              [VStr "not a function"] "middleware must be a function" _ _ _ _ _ _ _);
      try (vm_compute; reflexivity). discriminate. }
  rewrite Hrun. vm_compute. repeat split.
Defined.

(** X8: a descriptor with a non-empty string [path], not frozen, and
    truthy [methods], whose [handlers] is truthy but not iterable (a
    number, [true], a function, a plain object) is skipped with a
    failure warning and without any call to the router: the spread of
    the handlers throws.  Its [path] has already been overwritten with
    the computed route path.  (Handlers given as an iterable that is not
    an array, a [Set] for instance, are spread and reach the router.) *)
Theorem handlers_not_iterable_is_skipped `{PathOps} (env : Env)
    prefix ap router file w l declared :
  import_default env file = Return (VObj l) ->
  prop (heap w) (VObj l) "path" = VStr declared -> declared <> "" ->
  frozen env l = false ->
  truthy (prop (heap w) (VObj l) "methods") = true ->
  truthy (prop (heap w) (VObj l) "handlers") = true ->
  iterable (prop (heap w) (VObj l) "handlers") = false ->
  exists message,
    load_file env prefix ap router file w
    = (Return router,
       log (with_heap w (assign (heap w) l "path"
                           (VStr (route_path env prefix ap file declared))))
         [EvImport file; EvWarn (failure_warning file message)]).
Proof.
  intros Himp Hdecl Hne Hwritable Hmethods Hhandlers Hiter. eexists.
  unfold load_file. erewrite try_catch_throw.
  2:{ rewrite (load_body_valid env prefix ap router file w l declared); try done.
      - apply bind_throw.
        by destruct (prop (heap w) (VObj l) "handlers").
      - apply not_falsy; try done. rewrite Hdecl. by apply truthy_nonempty. }
  unfold bind, error_message, console_warn, emit, ret. cbn beta iota.
  by rewrite !log_log.
Qed.

Lemma handlers_not_iterable_is_skipped_witness :
  exists message,
    load_file Edge.odd "/api" "/app/odd" new_Router "/app/odd/flag.js" Edge.odd_start
    = (Return new_Router,
       log (with_heap Edge.odd_start
              (assign (heap Edge.odd_start) 3 "path"
                 (VStr (route_path Edge.odd "/api" "/app/odd" "/app/odd/flag.js"
                          "/flag"))))
         [EvImport "/app/odd/flag.js";
          EvWarn (failure_warning "/app/odd/flag.js" message)]).
Proof.
  refine (handlers_not_iterable_is_skipped Edge.odd "/api" "/app/odd" new_Router
            "/app/odd/flag.js" Edge.odd_start 3%positive "/flag" _ _ _ _ _ _ _);
    try (vm_compute; reflexivity); discriminate.
Defined.

(** Handlers given as a [Set] are iterable: they are spread and the file
    is registered. *)
Example set_of_handlers_is_registered :
  let w := with_heap Edge.odd_start
             (assign (heap Edge.odd_start) 3 "handlers" (VIter [Demo.handler])) in
  fst (load_file Edge.odd "/api" "/app/odd" new_Router "/app/odd/flag.js" w)
  = Return [{| layer_path := "/api/flag"; layer_methods := VArr [VStr "get"];
               layer_middleware := [Demo.handler] |}].
Proof. vm_compute. reflexivity. Qed.

(** ** When a listed run rejects *)

Section Fatal.
Context `{PathOps} (env : Env).

Lemma load_file_returned_not_nullish prefix ap router file w router1 w1 :
  load_file env prefix ap router file w = (Return router1, w1) ->
  ~ throws_nullish env file.
Proof.
  intros Hrun (v & Himp & Hv).
  by rewrite (load_file_import_nullish env prefix ap router file w v) in Hrun.
Qed.

Lemma load_file_thrown_nullish prefix ap router file w e w1 :
  load_file env prefix ap router file w = (Throw e, w1) ->
  e = ThrowError "Cannot read properties of undefined or null"
  /\ throws_nullish env file.
Proof.
  intros Hrun.
  pose proof (load_file_step env prefix ap router file w) as Hstep.
  rewrite Hrun in Hstep. inversion Hstep; subst. split; [done|]. by exists v.
Qed.

Lemma loop_fatal prefix ap files :
  forall router w r w',
    foldM (load_file env prefix ap) files router w = (r, w') ->
    match r with
    | Return _ => Forall (fun file => ~ throws_nullish env file) files
    | Throw e =>
        e = ThrowError "Cannot read properties of undefined or null"
        /\ exists before file after es,
             files = (before ++ file :: after)%list
             /\ Forall (fun f => ~ throws_nullish env f) before
             /\ throws_nullish env file
             /\ trace w' = (trace w ++ es)%list
             /\ imports es = (before ++ [file])%list
    end.
Proof.
  induction files as [|file files IH]; intros router w r w'.
  - intros [= <- <-]. constructor.
  - cbn [foldM]. unfold bind at 1.
    destruct (load_file env prefix ap router file w) as [[router1|e] w1] eqn:Hstep.
    + pose proof (load_file_returned_not_nullish _ _ _ _ _ _ _ Hstep) as Hfile.
      destruct (load_file_accounting env _ _ _ _ _ _ _ Hstep) as (es1 & Ht1 & Hi1 & _).
      intros Hrest. specialize (IH _ _ _ _ Hrest). destruct r as [router'|e].
      * by constructor.
      * destruct IH as (-> & before & bad & after & es2 & -> & Hbefore & Hbad & Ht2 & Hi2).
        split; [done|].
        exists (file :: before), bad, after, (es1 ++ es2)%list.
        split; [done|]. split; [by constructor|]. split; [done|].
        split; [by rewrite Ht2, Ht1, app_assoc|].
        by rewrite imports_app, Hi1, Hi2.
    + intros [= <- <-].
      destruct (load_file_thrown_nullish _ _ _ _ _ _ _ Hstep) as [-> Hbad].
      destruct (load_file_accounting env _ _ _ _ _ _ _ Hstep) as (es1 & Ht1 & Hi1 & _).
      split; [done|]. by exists [], file, files, es1.
Qed.

End Fatal.

(** X9: once the root directory has been listed, and with a router
    that throws nothing but [Error] objects, a run rejects exactly when
    the module of some eligible file throws [undefined] or [null].  It
    then rejects with the [TypeError] raised by [error.message] in the
    [catch] clause, at the first such file: the eligible files before it
    were imported, in order, and none after it. *)
Theorem listed_run_rejects_at_first_nullish_throw `{PathOps} (env : Env)
    routers_dir options w entries :
  fs_access env (resolve_dir env routers_dir) = true ->
  fs_readdir env (resolve_dir env routers_dir) = Return entries ->
  let run := loadRouters env routers_dir options w in
  match fst run with
  | Return _ =>
      Forall (fun file => ~ throws_nullish env file) (eligible env routers_dir options w)
  | Throw e =>
      e = ThrowError "Cannot read properties of undefined or null"
      /\ exists before file after es,
           eligible env routers_dir options w = (before ++ file :: after)%list
           /\ Forall (fun f => ~ throws_nullish env f) before
           /\ throws_nullish env file
           /\ trace (snd run)
              = (trace w ++ [EvAccess (resolve_dir env routers_dir);
                             EvReaddir (resolve_dir env routers_dir)] ++ es)%list
           /\ imports es = (before ++ [file])%list
  end.
Proof.
  intros Hacc Hdir run.
  destruct (loadRouters_listed env routers_dir options w entries Hacc Hdir)
    as (w1 & _ & Htrace & Heq).
  unfold run. rewrite Heq.
  destruct (foldM _ _ _ _) as [r w'] eqn:Hloop.
  apply loop_fatal in Hloop. cbn [fst snd]. destruct r as [router|e]; [done|].
  destruct Hloop as (-> & before & bad & after & es & Hfiles & Hbefore & Hbad & Ht & Hi).
  split; [done|]. exists before, bad, after, es.
  repeat split; try done. by rewrite Ht, Htrace, <- app_assoc.
Qed.

Lemma listed_run_rejects_at_first_nullish_throw_witness :
  let run := loadRouters Demo.host "/app/fatal" no_options Demo.start in
  fst run = Throw (ThrowError "Cannot read properties of undefined or null")
  /\ exists before file after es,
       ["/app/fatal/null.js"; "/app/fatal/ok.js"] = (before ++ file :: after)%list
       /\ throws_nullish Demo.host file
       /\ imports es = (before ++ [file])%list.
Proof.
  cbv zeta.
  assert (Hrun : loadRouters Demo.host "/app/fatal" no_options Demo.start
                 = (Throw (ThrowError "Cannot read properties of undefined or null"),
                    snd (loadRouters Demo.host "/app/fatal" no_options Demo.start))).
  { vm_compute. reflexivity. }
  split; [by rewrite Hrun|].
  assert (Hacc : fs_access Demo.host (resolve_dir Demo.host "/app/fatal") = true).
  { vm_compute. reflexivity. }
  assert (Hdir : fs_readdir Demo.host (resolve_dir Demo.host "/app/fatal")
                 = Return [Demo.file_in "/app/fatal" "null.js";
                           Demo.file_in "/app/fatal" "ok.js"]).
  { vm_compute. reflexivity. }
  assert (Hfiles : eligible Demo.host "/app/fatal" no_options Demo.start
                   = ["/app/fatal/null.js"; "/app/fatal/ok.js"]).
  { vm_compute. reflexivity. }
  pose proof (listed_run_rejects_at_first_nullish_throw Demo.host "/app/fatal"
                no_options Demo.start _ Hacc Hdir) as Hw.
  cbv zeta in Hw. rewrite Hrun in Hw. cbn [fst] in Hw.
 
  destruct Hw as (_ & before & file & after & es & Hsplit & _ & Hbad & _ & Himports).
  rewrite Hfiles in Hsplit.
  exists before, file, after, es. exact (conj Hsplit (conj Hbad Himports)).
Defined.


(** ** Ignore patterns without flags *)

(** X10: when no ignore pattern carries the [g] or [y] flag, a run
    leaves the [lastIndex] of every pattern as it found it and imports
    no file that one of the patterns matches. *)
Theorem flagless_patterns_exclude_every_match `{PathOps} (env : Env)
    routers_dir options w :
  Forall stateless (default [] (opt_ignorePatterns options)) ->
  let w' := snd (loadRouters env routers_dir options w) in
  lastIndex w' = lastIndex w
  /\ exists es,
       trace w' = (trace w ++ es)%list
       /\ forall file R,
            In R (default [] (opt_ignorePatterns options)) ->
            matches R file = true -> ~ In file (imports es).
Proof.
  intros Hpatterns w'. unfold w'. clear w'.
  destruct (fs_access env (resolve_dir env routers_dir)) eqn:Hacc.
  2:{ rewrite loadRouters_inaccessible by done. split; [done|].
      eexists. split; [reflexivity|]. by intros file R _ _ []. }
  destruct (fs_readdir env (resolve_dir env routers_dir)) as [entries|e] eqn:Hdir.
  2:{ rewrite (loadRouters_unlisted env _ _ _ e) by done. split; [done|].
      eexists. split; [reflexivity|]. by intros file R _ _ []. }
  pose proof (stateless_patterns_exclude env routers_dir options w) as Hexcl.
  pose proof (eligible_stateless env routers_dir options w entries Hpatterns Hdir)
    as Hfiles.
  rewrite loadRouters_accessible by done.
  unfold after_access.
  erewrite bind_run.
  2:{ unfold readdir. erewrite bind_run by reflexivity.
      unfold lift_result. rewrite Hdir. reflexivity. }
  rewrite log_log. simpl app.
  erewrite bind_run by by apply filterM_stateless.
  rewrite <- Hfiles.
  destruct (foldM _ _ _ _) as [r w'] eqn:Hloop. cbn [snd].
  destruct (loop_accounting env _ _ _ _ _ _ _ Hloop) as (es & Ht & Hl & Hr).
  split; [by rewrite Hl|].
  exists ([EvAccess (resolve_dir env routers_dir);
           EvReaddir (resolve_dir env routers_dir)] ++ es)%list.
  split; [by rewrite Ht; cbn [trace log]; rewrite <- app_assoc|].
  intros file R HR Hmatch Hin. apply (Hexcl file R Hpatterns HR Hmatch).
  rewrite imports_app in Hin. cbn [imports omap app] in Hin.
  destruct r as [router|e].
  - destruct Hr as [<- _]. exact Hin.
  - destruct Hr as (rest & ->). apply in_or_app. by left.
Qed.

Lemma flagless_patterns_exclude_every_match_witness :
  let options := Demo.ignoring [Demo.test_js] in
  let w' := snd (loadRouters Demo.host "/app/test_routers" options Demo.start) in
  matches Demo.test_js "/app/test_routers/ignore.test.js" = true
  /\ lastIndex w' = lastIndex Demo.start
  /\ exists es,
       trace w' = (trace Demo.start ++ es)%list
       /\ forall file R,
            In R [Demo.test_js] -> matches R file = true -> ~ In file (imports es).
Proof.
  intros options w'. split; [vm_compute; reflexivity|].
  refine (flagless_patterns_exclude_every_match Demo.host "/app/test_routers" options
            Demo.start _).
  repeat constructor.
Defined.


(** ** Two files that export one object *)

Lemma snoc_inv_last {A} (l : list A) x y : (l ++ [x])%list = (l ++ [y])%list -> x = y.
Proof. intros Heq. apply app_inv_head in Heq. congruence. Qed.

Lemma snoc_neq {A} (l : list A) x : (l ++ [x])%list <> l.
Proof.
  intros Heq. apply (f_equal (@List.length A)) in Heq.
  rewrite length_app in Heq. cbn [List.length] in Heq. lia.
Qed.

(** X11: when two route files export one and the same object and both
    are registered, the second registration does not start from the path
    the module declared: it joins the prefix and its own relative
    directory onto the route path that the first registration wrote into
    the shared object. *)
Theorem shared_export_is_registered_from_rewritten_path `{PathOps} (env : Env)
    prefix ap router file1 file2 w l layer1 layer2 w1 w2 :
  import_default env file1 = Return (VObj l) ->
  import_default env file2 = Return (VObj l) ->
  load_file env prefix ap router file1 w = (Return (router ++ [layer1])%list, w1) ->
  load_file env prefix ap (router ++ [layer1])%list file2 w1
  = (Return ((router ++ [layer1]) ++ [layer2])%list, w2) ->
  layer_path layer2 = route_path env prefix ap file2 (layer_path layer1).
Proof.
  intros Himp1 Himp2 Hrun1 Hrun2.
  destruct (load_file_registered_inv env _ _ _ _ _ _ _ Hrun1 (snoc_neq _ _))
    as (l1 & declared1 & args1 & Hl1 & _ & _ & _ & _ & Hlayer1 & ->).
  destruct (load_file_registered_inv env _ _ _ _ _ _ _ Hrun2 (snoc_neq _ _))
    as (l2 & declared2 & args2 & Hl2 & Hdecl2 & _ & _ & _ & Hlayer2 & _).
  rewrite Himp1 in Hl1. rewrite Himp2 in Hl2.
  injection Hl1 as <-. injection Hl2 as <-.
  apply snoc_inv_last in Hlayer1 as ->. apply snoc_inv_last in Hlayer2 as ->.
  rewrite heap_log_with_heap, prop_assign_eq in Hdecl2.
  injection Hdecl2 as <-. reflexivity.
Qed.

Lemma shared_export_is_registered_from_rewritten_path_witness :
  "/v1/v1/shared"
  = route_path Edge.odd "/v1" "/app/odd" "/app/odd/alias-b.js" "/v1/shared".
Proof.
  pose (layer1 := {| layer_path := "/v1/shared"; layer_methods := VArr [VStr "get"];
                     layer_middleware := [Demo.handler] |}).
  pose (layer2 := {| layer_path := "/v1/v1/shared"; layer_methods := VArr [VStr "get"];
                     layer_middleware := [Demo.handler] |}).
  pose (first := load_file Edge.odd "/v1" "/app/odd" new_Router "/app/odd/alias-a.js"
                   Edge.odd_start).
  pose (second := load_file Edge.odd "/v1" "/app/odd" (new_Router ++ [layer1])%list
                    "/app/odd/alias-b.js" (snd first)).
  refine (shared_export_is_registered_from_rewritten_path Edge.odd "/v1" "/app/odd"
            new_Router "/app/odd/alias-a.js" "/app/odd/alias-b.js" Edge.odd_start
            4%positive layer1 layer2 (snd first) (snd second) _ _ _ _);
    vm_compute; reflexivity.
Defined.


(** ** Normalizing an absolute path twice *)

Section Idempotence.
Import JSString.









Lemma join_slash_solid_nonempty seg segs :
  solid seg -> is_empty (join_slash (seg :: segs)) = false.
Proof. intros [Hne _]. destruct seg; [done|]. by destruct segs. Qed.

(** What [normalize] answers for an absolute path, by its segments. *)
Lemma normalize_absolute path :
  startsWith_slash path = true ->
  Posix.normalize path
  = match Posix.normalize_segments false (split_slash path) with
    | [] => "/"
    | segs => if endsWith_slash path then String slash (join_slash segs ++ "/")
              else String slash (join_slash segs)
    end.
Proof.
  intros Habs. unfold Posix.normalize, Posix.normalizeString.
  rewrite Habs. destruct path as [|c path]; [done|]. cbn [is_empty negb].
  pose proof (normalize_segments_solid false (split_slash (String c path))
                (split_slash_no_slash _)) as Hsolid.
  destruct (Posix.normalize_segments false (split_slash (String c path)))
    as [|seg segs]; [done|].
  apply Forall_cons in Hsolid as [Hseg _].
  rewrite (join_slash_solid_nonempty seg segs Hseg).
  by destruct (endsWith_slash (String c path)).
Qed.

Lemma normalize_absolute_starts path :
  startsWith_slash path = true -> startsWith_slash (Posix.normalize path) = true.
Proof.
  intros Habs. rewrite normalize_absolute by done.
  destruct (Posix.normalize_segments false (split_slash path)); [done|].
  by destruct (endsWith_slash path).
Qed.








End Idempotence.

(** X12: on a POSIX host whose working directory is an absolute path,
    the directory that a run checks, lists and names in its error
    message is an absolute path, whatever [routers_dir] is. *)
Theorem resolved_directory_is_absolute (env : Env) routers_dir :
  Posix.isAbsolute (cwd env) = true ->
  Posix.isAbsolute (resolve_dir env routers_dir) = true.
Proof.
  intros Hcwd. unfold resolve_dir. cbn [isAbsolute join posix].
  destruct (Posix.isAbsolute routers_dir) eqn:Habs; [done|].
  unfold Posix.isAbsolute in *. unfold Posix.join.
  destruct (cwd env) as [|c rest] eqn:Hc; [done|].
  cbn [List.filter JSString.is_empty negb].
  destruct (negb (JSString.is_empty routers_dir)).
  - apply normalize_absolute_starts. rewrite join_slash_cons by done. exact Hcwd.
  - apply normalize_absolute_starts. exact Hcwd.
Qed.

Lemma resolved_directory_is_absolute_witness :
  resolve_dir Demo.host "routes/../routes/v1/" = "/app/routes/v1/"
  /\ Posix.isAbsolute (resolve_dir Demo.host "routes/../routes/v1/") = true.
Proof.
  split; [vm_compute; reflexivity|].
  apply (resolved_directory_is_absolute Demo.host "routes/../routes/v1/").
  reflexivity.
Defined.

(** ** Loading a root-level file again *)

Section Rerun.
Context (env : Env).
Import JSString.



End Rerun.



(** ** Imports follow the listing *)

Lemma filter_sublist {A} (f : A -> bool) l : sublist (List.filter f l) l.
Proof.
  induction l as [|a l IH]; [constructor|]. cbn [List.filter].
  destruct (f a); by constructor.
Qed.

Lemma map_sublist {A B} (f : A -> B) l1 l2 :
  sublist l1 l2 -> sublist (map f l1) (map f l2).
Proof. induction 1; cbn [map]; by constructor. Qed.

Lemma filterM_sublist {A} (f : A -> M bool) l w kept w' :
  filterM f l w = (Return kept, w') -> sublist kept l.
Proof.
  revert w kept w'. induction l as [|a l IH]; intros w kept w'; simpl.
  - intros [= <- <-]. constructor.
  - unfold bind at 1. destruct (f a w) as [[b|e] w1]; [|discriminate].
    unfold bind at 1. destruct (filterM f l w1) as [[rest|e] w2] eqn:Hrest; [|discriminate].
    intros [= <- <-]. specialize (IH _ _ _ Hrest). destruct b; by constructor.
Qed.

Lemma eligible_sublist `{PathOps} (env : Env) routers_dir options w entries :
  fs_readdir env (resolve_dir env routers_dir) = Return entries ->
  sublist (eligible env routers_dir options w) (map full_path entries).
Proof.
  intros Hdir. unfold eligible. rewrite Hdir.
  destruct (filterM _ _ _) as [[kept|e] w1] eqn:Hkept; [|apply sublist_nil_l].
  apply filterM_sublist in Hkept. etrans; [exact Hkept|].
  apply map_sublist, filter_sublist.
Qed.

(** X14: whatever the options and the ignore patterns (also patterns
    with the [g] or [y] flag), the modules a run imports are entries of
    the directory listing, joined with their parent directory, and they
    are imported in the order of the listing, each listed entry at most
    once. *)
Theorem imports_follow_the_directory_listing `{PathOps} (env : Env)
    routers_dir options w entries :
  fs_readdir env (resolve_dir env routers_dir) = Return entries ->
  exists es,
    trace (snd (loadRouters env routers_dir options w)) = (trace w ++ es)%list
    /\ sublist (imports es) (map full_path entries).
Proof.
  intros Hdir.
  destruct (fs_access env (resolve_dir env routers_dir)) eqn:Hacc.
  2:{ rewrite loadRouters_inaccessible by done.
      eexists. split; [reflexivity|]. apply sublist_nil_l. }
  pose proof (eligible_sublist env routers_dir options w entries Hdir) as Hsub.
  destruct (loadRouters_listed env routers_dir options w entries Hacc Hdir)
    as (w1 & _ & Htrace & ->).
  destruct (foldM _ _ _ _) as [r w'] eqn:Hloop. cbn [snd].
  destruct (loop_accounting env _ _ _ _ _ _ _ Hloop) as (es & Ht & _ & Hr).
  exists ([EvAccess (resolve_dir env routers_dir);
           EvReaddir (resolve_dir env routers_dir)] ++ es)%list.
  split; [by rewrite Ht, Htrace, <- app_assoc|].
  rewrite imports_app. cbn [imports omap app].
  destruct r as [router|e].
  - destruct Hr as [Himports _]. rewrite <- Himports in Hsub. exact Hsub.
  - destruct Hr as (rest & Hfiles). rewrite Hfiles in Hsub.
    etrans; [|exact Hsub]. apply sublist_inserts_r. reflexivity.
Qed.

Lemma imports_follow_the_directory_listing_witness :
  exists es,
    trace (snd (loadRouters Demo.host "/app/routes" no_options Demo.start))
    = (trace Demo.start ++ es)%list
    /\ sublist (imports es)
         (map full_path
            [ Demo.file_in "/app/routes" "login.js";
              Demo.dir_in "/app/routes" "v1";
              Demo.file_in "/app/routes" "notes.md";
              Demo.file_in "/app/routes/v1" "resource.js";
              {| d_name := "latest.js"; d_parentPath := "/app/routes";
                 d_kind := KSymbolicLink |} ]).
Proof.
  apply (imports_follow_the_directory_listing Demo.host "/app/routes" no_options
           Demo.start).
  vm_compute. reflexivity.
Defined.
